(** * TeamKeshi: the two-captain draft of foot4ever

    A shallow embedding of [src/teamkeshi.py] (class [TeamKeshi] and the
    two keyboard functions) together with the parts of [src/main.py] that
    drive the draft (picking, validating) and keep the register of the
    next match (orders, list of the next players).

    Conventions of the embedding.
    - A [FootUser] is a Python object.  The class defines neither [__eq__]
      nor [__hash__], so dictionary keys, [in] and [==] all compare object
      identity; the field [obj] carries that identity.
    - [self.teams] is an [OrderedDict]: an association list in insertion
      order, keys compared by identity.
    - Ratings are Python floats.  Where a property depends only on whether
      rates are known, on how many there are and on sums and quotients as
      such, they are kept as the exact rationals [Q] they denote.  The
      order of two averages depends on rounding: for it [whose_turn64]
      computes in binary64, as the interpreter does.
    - Python exceptions are values of [exn]; a method that may raise
      returns a [result]. *)

From Stdlib Require Import Floats.
From Stdlib Require Import Ascii String.
From Stdlib Require Import List ZArith QArith Bool Lia.
From Stdlib Require Import Sorted Permutation.
Import ListNotations.

(** ** Exceptions and the error monad *)

Inductive exn : Type :=
| TypeError
| ZeroDivisionError
| IndexError
| KeyError.

Inductive result (A : Type) : Type :=
| Ok (a : A)
| Raise (e : exn).

Arguments Ok {A} a.
Arguments Raise {A} e.

Definition bind {A B : Type} (c : result A) (k : A -> result B) : result B :=
  match c with
  | Ok a => k a
  | Raise e => Raise e
  end.

Notation "x <- c ;; k" := (bind c (fun x => k))
  (at level 61, c at next level, right associativity).

(** ** Players *)

Record FootUser : Type := mkFootUser {
  obj : nat;                        (* object identity *)
  first_name : string;
  user_name : string;
  foot_rates : option (list Q);     (* [None] when the rates are unknown *)
  order_id : Z                      (* [-1]: not in the next match *)
}.

(** Default [==] of Python objects. *)
Definition py_eq (a b : FootUser) : bool := Nat.eqb (obj a) (obj b).

(** [x in l] for a list. *)
Definition py_in (x : FootUser) (l : list FootUser) : bool :=
  existsb (py_eq x) l.

(** [l[i]] for a list. *)
Definition list_index {A : Type} (l : list A) (i : nat) : result A :=
  match nth_error l i with
  | Some a => Ok a
  | None => Raise IndexError
  end.

(** ** [sorted(l, key=...)]: a stable sort *)

Section Sorted.
Variable A : Type.
Variable leb : A -> A -> bool.

(** [x] goes before the first element that is not smaller than it, so
    that elements with equal keys keep their order. *)
Fixpoint insert (x : A) (l : list A) : list A :=
  match l with
  | [] => [x]
  | y :: l' => if leb x y then x :: l else y :: insert x l'
  end.

Fixpoint sorted (l : list A) : list A :=
  match l with
  | [] => []
  | x :: l' => insert x (sorted l')
  end.
End Sorted.

Arguments insert {A} leb x l.
Arguments sorted {A} leb l.

(** The comparison behind [key=lambda x: x.order_id]. *)
Definition key_leb {A : Type} (key : A -> Z) (x y : A) : bool :=
  (key x <=? key y)%Z.

Definition key_le {A : Type} (key : A -> Z) (x y : A) : Prop :=
  (key x <= key y)%Z.

(** ** Ordered dictionaries keyed by player objects *)

Definition odict : Type := list (FootUser * list FootUser).

Definition keys (d : odict) : list FootUser := map fst d.
Definition values (d : odict) : list (list FootUser) := map snd d.

(** [k in d] *)
Definition contains (d : odict) (k : FootUser) : bool :=
  existsb (fun kv => py_eq k (fst kv)) d.

(** [d[k]] *)
Fixpoint getitem (d : odict) (k : FootUser) : result (list FootUser) :=
  match d with
  | [] => Raise KeyError
  | (k', v) :: d' => if py_eq k k' then Ok v else getitem d' k
  end.

(** [d[k] = v]: an existing key keeps its place, a new key goes last. *)
Fixpoint setitem (d : odict) (k : FootUser) (v : list FootUser) : odict :=
  match d with
  | [] => [(k, v)]
  | (k', v') :: d' =>
      if py_eq k k' then (k', v) :: d' else (k', v') :: setitem d' k v
  end.

(** [d[k].append(x)] *)
Definition dict_append (d : odict) (k x : FootUser) : result odict :=
  v <- getitem d k ;;
  Ok (setitem d k (v ++ [x])).

(** ** Numbers *)

Definition Qlt_bool (x y : Q) : bool := negb (Qle_bool y x).

(** [sum(l)] *)
Definition sum (l : list Q) : Q := fold_left Qplus l 0%Q.

(** [sum(rates) / len(rates)] as [whose_turn] computes it on a captain's
    [foot_rates]: [sum(None)] is a [TypeError], an empty list divides by
    zero. *)
Definition average (rates : option (list Q)) : result Q :=
  match rates with
  | None => Raise TypeError
  | Some l =>
      if Nat.eqb (length l) 0 then Raise ZeroDivisionError
      else Ok (sum l / inject_Z (Z.of_nat (length l)))%Q
  end.

(** ** The draft session *)

Record TeamKeshi : Type := mkTeamKeshi {
  players : list FootUser;
  teams : odict;
  who_validated : list FootUser
}.

Definition set_teams (self : TeamKeshi) (d : odict) : TeamKeshi :=
  {| players := players self; teams := d; who_validated := who_validated self |}.

(** [TeamKeshi.__init__] *)
Definition init (all_players : list FootUser) : TeamKeshi :=
  let players := filter (fun player => (order_id player >=? 0)%Z) all_players in
  let players :=
    firstn 10 (sorted (key_leb order_id) players) in
  {| players := players; teams := []; who_validated := [] |}.

(** [TeamKeshi.add_captain] *)
Definition add_captain (self : TeamKeshi) (captain_player : FootUser)
  : result TeamKeshi :=
  if negb (contains (teams self) captain_player) then
    let d := setitem (teams self) captain_player [] in
    d' <- dict_append d captain_player captain_player ;;
    Ok (set_teams self d')
  else Ok self.

(** [TeamKeshi.add_player] *)
Definition add_player (self : TeamKeshi) (captain_player player : FootUser)
  : result TeamKeshi :=
  d' <- dict_append (teams self) captain_player player ;;
  Ok (set_teams self d').

(** [TeamKeshi.is_finish] *)
Definition is_finish (self : TeamKeshi) : bool :=
  if Nat.eqb (length (teams self)) 0 then false
  else forallb (fun players => negb (length players <? 5)%nat)
               (values (teams self)).

(** [TeamKeshi.is_both_validated] *)
Definition is_both_validated (self : TeamKeshi) : bool :=
  Nat.eqb (length (who_validated self)) 2.

(** [TeamKeshi.set_validation] *)
Definition set_validation (self : TeamKeshi) (captain : FootUser) : TeamKeshi :=
  {| players := players self;
     teams := teams self;
     who_validated := who_validated self ++ [captain] |}.

(** [TeamKeshi.whose_turn] *)
Definition whose_turn (self : TeamKeshi) : result FootUser :=
  captain_1 <- list_index (keys (teams self)) 0 ;;
  captain_2 <- list_index (keys (teams self)) 1 ;;
  if is_finish self then
    Ok (if py_in captain_1 (who_validated self) then captain_2 else captain_1)
  else
    team_1 <- getitem (teams self) captain_1 ;;
    team_2 <- getitem (teams self) captain_2 ;;
    let by_size :=
      Ok (if (length team_1 <=? length team_2)%nat then captain_1 else captain_2) in
    if Nat.eqb (length team_1) (length team_2) then
      rate_1 <- average (foot_rates captain_1) ;;
      rate_2 <- average (foot_rates captain_2) ;;
      if Qlt_bool 0 rate_1 && Qlt_bool 0 rate_2 then
        Ok (if Qle_bool rate_1 rate_2 then captain_1 else captain_2)
      else by_size
    else by_size.

(** ** Whose turn, in binary64

    The two averages that [whose_turn] compares are computed by Python in
    binary64: [sum] adds from left to right, starting from [0], and the
    sum is divided by the length.  [foot_rates64 player] is the attribute
    [player.foot_rates] as the floats the interpreter holds. *)

(** [float(n)] for a length. *)
Definition float_of_nat (n : nat) : float :=
  PrimFloat.of_uint63 (Uint63.of_Z (Z.of_nat n)).

(** [sum(l)] *)
Definition sum64 (l : list float) : float := fold_left PrimFloat.add l 0%float.

(** [sum(rates) / len(rates)] *)
Definition average64 (rates : option (list float)) : result float :=
  match rates with
  | None => Raise TypeError
  | Some l =>
      if Nat.eqb (length l) 0 then Raise ZeroDivisionError
      else Ok (PrimFloat.div (sum64 l) (float_of_nat (length l)))
  end.

(** [TeamKeshi.whose_turn] *)
Definition whose_turn64 (foot_rates64 : FootUser -> option (list float))
    (self : TeamKeshi) : result FootUser :=
  captain_1 <- list_index (keys (teams self)) 0 ;;
  captain_2 <- list_index (keys (teams self)) 1 ;;
  if is_finish self then
    Ok (if py_in captain_1 (who_validated self) then captain_2 else captain_1)
  else
    team_1 <- getitem (teams self) captain_1 ;;
    team_2 <- getitem (teams self) captain_2 ;;
    let by_size :=
      Ok (if (length team_1 <=? length team_2)%nat then captain_1 else captain_2) in
    if Nat.eqb (length team_1) (length team_2) then
      rate_1 <- average64 (foot_rates64 captain_1) ;;
      rate_2 <- average64 (foot_rates64 captain_2) ;;
      if PrimFloat.ltb 0 rate_1 && PrimFloat.ltb 0 rate_2 then
        Ok (if PrimFloat.leb rate_1 rate_2 then captain_1 else captain_2)
      else by_size
    else by_size.

(** The rational a finite float stands for ([0] for the others). *)
Definition exact (x : float) : Q :=
  match Prim2SF x with
  | S754_finite s m e =>
      let v := if s then Z.neg m else Z.pos m in
      match e with
      | Z0 => inject_Z v
      | Z.pos p => inject_Z (v * 2 ^ Z.pos p)
      | Z.neg p => v # (2 ^ p)
      end
  | _ => 0
  end.

(** ** Rendering the teams *)

(** [rates[idx] = v] *)
Fixpoint list_set (rates : list Q) (idx : nat) (v : Q) : result (list Q) :=
  match rates, idx with
  | [], _ => Raise IndexError
  | _ :: rates', O => Ok (v :: rates')
  | r :: rates', S idx' =>
      rates'' <- list_set rates' idx' v ;;
      Ok (r :: rates'')
  end.

(** [for idx, rate in enumerate(foot_rates): rates[idx] += rate], the
    enumeration being at position [idx]. *)
Fixpoint add_rates (rates : list Q) (idx : nat) (foot_rates : list Q)
  : result (list Q) :=
  match foot_rates with
  | [] => Ok rates
  | rate :: foot_rates' =>
      r <- list_index rates idx ;;
      rates' <- list_set rates idx (r + rate)%Q ;;
      add_rates rates' (S idx) foot_rates'
  end.

(** The loop over the players of a team: the running sums and the number
    of players whose rates are known. *)
Fixpoint sum_rates (players : list FootUser) (rates : list Q) (nb_totals : nat)
  : result (list Q * nat) :=
  match players with
  | [] => Ok (rates, nb_totals)
  | player :: players' =>
      match foot_rates player with
      | Some l =>
          rates' <- add_rates rates 0 l ;;
          sum_rates players' rates' (S nb_totals)
      | None => sum_rates players' rates nb_totals
      end
  end.

(** [x / n] for a count [n]. *)
Definition py_div (x : Q) (n : nat) : result Q :=
  if Nat.eqb n 0 then Raise ZeroDivisionError
  else Ok (x / inject_Z (Z.of_nat n))%Q.

(** [rates[idx] = rates[idx] / nb_totals] *)
Definition div_at (rates : list Q) (idx nb_totals : nat) : result (list Q) :=
  r <- list_index rates idx ;;
  q <- py_div r nb_totals ;;
  list_set rates idx q.

(** The [show_rates] block of [print_teams]: the four averaged rates of one
    team, before they are formatted. *)
Definition team_rates (players : list FootUser) : result (list Q) :=
  acc <- sum_rates players [0; 0; 0; 0]%Q 0 ;;
  let '(rates, nb_totals) := acc in
  rates <- div_at rates 0 nb_totals ;;
  rates <- div_at rates 1 nb_totals ;;
  rates <- div_at rates 2 nb_totals ;;
  div_at rates 3 nb_totals.

(** The text of [print_teams], line by line; a line is kept as the values
    substituted into its template (the colour of the team, the four
    averages handed to [format_number], a rank and a name). *)
Inductive line : Type :=
| Header (is_white : bool)
| TeamRates (rate_goa rate_def rate_att rate_run : Q)
| Entry (rank : nat) (name : string)
| Blank.

Fixpoint entries (idx : nat) (players : list FootUser) : list line :=
  match players with
  | [] => []
  | player :: players' => Entry (idx + 1) (user_name player) :: entries (S idx) players'
  end.

(** One turn of the loop over [self.teams.items()]. *)
Definition print_team (self : TeamKeshi) (sort show_rates : bool)
    (captain : FootUser) (players : list FootUser) : result (list line) :=
  first <- list_index (keys (teams self)) 0 ;;
  let is_white := py_eq captain first in
  let players :=
    if sort then sorted (fun x y => String.leb (first_name x) (first_name y)) players
    else players in
  rates_line <-
    (if show_rates then
       rates <- team_rates players ;;
       rate_goa <- list_index rates 0 ;;
       rate_def <- list_index rates 1 ;;
       rate_att <- list_index rates 2 ;;
       rate_run <- list_index rates 3 ;;
       Ok [TeamRates rate_goa rate_def rate_att rate_run]
     else Ok []) ;;
  Ok (Header is_white :: rates_line ++ entries 0 players ++ [Blank]).

Fixpoint print_items (self : TeamKeshi) (sort show_rates : bool) (items : odict)
  : result (list line) :=
  match items with
  | [] => Ok []
  | (captain, players) :: items' =>
      txt <- print_team self sort show_rates captain players ;;
      txt' <- print_items self sort show_rates items' ;;
      Ok (txt ++ txt')
  end.

(** [TeamKeshi.print_teams] *)
Definition print_teams (self : TeamKeshi) (sort show_rates : bool)
  : result (list line) :=
  print_items self sort show_rates (teams self).

(** ** The validation handshake of [Foot4Ever.on_btn_teamkeshi]

    [self.team_keshi.set_validation(self.team_keshi.whose_turn())]: the
    statement run on the answer [MotFr.yes] once [is_finish()] holds.  The
    captain recorded is the one [whose_turn()] names, whoever pressed the
    button; the session is finalised when [is_both_validated()] holds
    afterwards. *)
Definition on_btn_yes (self : TeamKeshi) : result TeamKeshi :=
  captain <- whose_turn self ;;
  Ok (set_validation self captain).

(** ** Picking a player: the last branch of [Foot4Ever.on_btn_teamkeshi]

    [cur_user = self.team_keshi.whose_turn()] replaces the user who pressed
    the button, the test compares the [id] of two calls of [whose_turn()],
    and the player found for the button is added to the team of
    [cur_user].  The player is the one [get_foot_user] found for the name
    on the button; it is an argument here.  The handler then writes the
    keyboard and the message anew ([get_keyboard], [get_msg]): that part
    is not in this definition. *)

Section Pick.
(** The attribute [id] of a [FootUser], which [TeamKeshi] never reads. *)
Variable user_id : FootUser -> Z.

Definition on_btn_pick (self : TeamKeshi) (player : FootUser) : result TeamKeshi :=
  cur_user <- whose_turn self ;;
  other <- whose_turn self ;;
  if (user_id cur_user =? user_id other)%Z
  then add_player self cur_user player
  else Ok self.

(** One button after the other. *)
Fixpoint picks (self : TeamKeshi) (chosen : list FootUser) : result TeamKeshi :=
  match chosen with
  | [] => Ok self
  | player :: chosen' =>
      self' <- on_btn_pick self player ;;
      picks self' chosen'
  end.
End Pick.

(** ** Keyboards *)

Module MotFr.
Definition cancel : string := "Annuler".
End MotFr.

Record InlineKeyboardButton : Type := mkButton {
  text : string;
  callback_data : string
}.

(** The loop of the function [create_player_keyboard]: the rows that are
    full and the row being filled. *)
Fixpoint keyboard_rows (nb_btn_in_row idx : nat) (players : list string)
    (keyboard : list (list InlineKeyboardButton)) (row : list InlineKeyboardButton)
  : list (list InlineKeyboardButton) * list InlineKeyboardButton :=
  match players with
  | [] => (keyboard, row)
  | player :: players' =>
      let row := row ++ [mkButton player player] in
      if Nat.eqb ((idx + 1) mod nb_btn_in_row) 0
      then keyboard_rows nb_btn_in_row (S idx) players' (keyboard ++ [row]) []
      else keyboard_rows nb_btn_in_row (S idx) players' keyboard row
  end.

(** The function [create_player_keyboard] of [teamkeshi.py]. *)
Definition create_player_keyboard (players : list string)
  : list (list InlineKeyboardButton) :=
  let nb_btn_in_row := 1%nat in
  let '(keyboard, row) := keyboard_rows nb_btn_in_row 0 players [] [] in
  let keyboard :=
    match row with
    | [] => keyboard
    | _ :: _ => keyboard ++ [row]
    end in
  keyboard ++ [[mkButton MotFr.cancel MotFr.cancel]].



(** [query.data.split(':')[0]]: what comes before the first colon. *)
Fixpoint split_colon_0 (s : string) : string :=
  match s with
  | EmptyString => EmptyString
  | String c s' =>
      if Ascii.eqb c ":"%char then EmptyString else String c (split_colon_0 s')
  end.

(** [':' in s] *)
Fixpoint has_colon (s : string) : bool :=
  match s with
  | EmptyString => false
  | String c s' => Ascii.eqb c ":"%char || has_colon s'
  end.

Section Formatting.
(** [TeamKeshi.format_number], the decimal rendering of a float: any
    function from numbers to text. *)
Variable format_number : Q -> string.


(** The text of the button of one player. *)
Definition player_label (player : FootUser) : string :=
  match foot_rates player with
  | Some l =>
      (user_name player ++ ": " ++ String.concat "|" (map format_number l))%string
  | None => user_name player
  end.



End Formatting.

(** [TeamKeshi.get_msg]: the name of the captain whose turn it is, which of
    the two prompts follows it, and the teams with their rates. *)
Record status_msg : Type := mkStatus {
  turn_name : string;
  ask_validation : bool;
  listing : list line
}.

Definition get_msg (self : TeamKeshi) : result status_msg :=
  let is_finish := is_finish self in
  captain <- whose_turn self ;;
  txt <- print_teams self false true ;;
  Ok {| turn_name := user_name captain;
        ask_validation := is_finish;
        listing := txt |}.

(** ** The register of [main.py] *)

(** The loop of [Foot4Ever.get_next_order_id]. *)
Fixpoint max_order_id (all_players : list FootUser) (order_id0 : Z) : Z :=
  match all_players with
  | [] => order_id0
  | player :: all_players' =>
      max_order_id all_players'
        (if (order_id player >? order_id0)%Z then order_id player else order_id0)
  end.

(** [Foot4Ever.get_next_order_id] *)
Definition get_next_order_id (all_players : list FootUser) : Z :=
  let order_id := max_order_id all_players (-1) in
  if (order_id =? -1)%Z then 0%Z else (order_id + 1)%Z.

(** [user.order_id = v] seen from [self.all_players]: the object [user]
    is the one changed. *)
Definition set_order_id (all_players : list FootUser) (user : FootUser) (v : Z)
  : list FootUser :=
  map (fun player =>
         if py_eq player user
         then {| obj := obj player;
                 first_name := first_name player;
                 user_name := user_name player;
                 foot_rates := foot_rates player;
                 order_id := v |}
         else player)
      all_players.

(** The last statement of [Foot4Ever.add_player]: a user who is not
    registered gets the next order. *)
Definition sign_up (all_players : list FootUser) (user : FootUser) : list FootUser :=
  if (order_id user <? 0)%Z
  then set_order_id all_players user (get_next_order_id all_players)
  else all_players.

(** The last statement of [Foot4Ever.del_player]. *)
Definition sign_off (all_players : list FootUser) (user : FootUser) : list FootUser :=
  if (order_id user >=? 0)%Z
  then set_order_id all_players user (-1)
  else all_players.

(** The orders of the registered players, in the order of the register. *)
Definition registered_orders (all_players : list FootUser) : list Z :=
  map order_id (filter (fun player => (order_id player >=? 0)%Z) all_players).

(** The names [Foot4Ever.get_program_and_players] lists. *)
Definition next_players (all_players : list FootUser) : list string :=
  let next_players := sorted (key_leb order_id) all_players in
  map user_name (filter (fun player => (order_id player >=? 0)%Z) next_players).

Inductive roster_line : Type :=
| Reserve
| Item (idx : nat) (player : string).

(** The loop of [Foot4Ever.get_program_and_players], at position [index]. *)
Fixpoint roster_lines (index : nat) (next_players : list string)
  : list roster_line :=
  match next_players with
  | [] => []
  | player :: next_players' =>
      (if Nat.eqb index 10 then [Reserve] else [])
      ++ Item (if (index <? 10)%nat then index + 1 else index - 9) player
      :: roster_lines (S index) next_players'
  end.

(** [Foot4Ever.get_program_and_players], given the text of
    [get_next_program()] (a date and a place). *)
Definition get_program_and_players (program : string)
    (all_players : list FootUser) : string * list roster_line :=
  (program, roster_lines 0 (next_players all_players)).

(** Names numbered from [idx] on. *)
Fixpoint numbered (idx : nat) (names : list string) : list roster_line :=
  match names with
  | [] => []
  | name :: names' => Item idx name :: numbered (S idx) names'
  end.

(** ** The averages as the specification words them *)

(** Following the words of the specification: the rates of the players
    whose rates are known, in the order of the team. *)
Fixpoint known_rates (players : list FootUser) : list (list Q) :=
  match players with
  | [] => []
  | player :: players' =>
      match foot_rates player with
      | Some l => l :: known_rates players'
      | None => known_rates players'
      end
  end.

(** Following the words of the specification: in dimension [idx], the sum
    over the players with known rates divided by the number of such
    players. *)
Definition spec_average (idx : nat) (players : list FootUser) : Q :=
  (sum (map (fun l => nth idx l 0) (known_rates players))
   / inject_Z (Z.of_nat (length (known_rates players))))%Q.

(** ** Sample sessions *)

Definition registered (n : nat) (rates : option (list Q)) : FootUser :=
  {| obj := n;
     first_name := "joueur"%string;
     user_name := "Joueur"%string;
     foot_rates := rates;
     order_id := Z.of_nat n |}.

Definition strong : FootUser := registered 0 (Some [4; 4; 4; 4]%Q).
Definition weak : FootUser := registered 1 (Some [2; 2; 2; 2]%Q).
Definition unrated : FootUser := registered 2 None.
Definition newcomer : FootUser := registered 3 None.
Definition third : FootUser := registered 4 (Some [3; 3; 3; 3]%Q).

Definition roster : list FootUser :=
  [strong; weak; unrated; newcomer; third;
   registered 5 None; registered 6 None; registered 7 None;
   registered 8 None; registered 9 None].

(** The session right after the two captains [c1] and [c2] have joined. *)
Definition paired (c1 c2 : FootUser) : TeamKeshi :=
  {| players := players (init roster);
     teams := [(c1, [c1]); (c2, [c2])];
     who_validated := [] |}.

(** A session with [strong] as its only captain and four picks. *)
Definition lone_team : TeamKeshi :=
  {| players := players (init roster);
     teams := [(strong, [strong; unrated; newcomer; third; registered 5 None])];
     who_validated := [] |}.

(** A session with two complete teams that nobody has validated. *)
Definition complete : TeamKeshi :=
  {| players := players (init roster);
     teams :=
       [(strong, [strong; unrated; third; registered 6 None; registered 8 None]);
        (weak, [weak; newcomer; registered 5 None; registered 7 None;
                registered 9 None])];
     who_validated := [] |}.

(** Two captains without rates, the first with one pick more. *)
Definition uneven : TeamKeshi :=
  {| players := players (init roster);
     teams := [(unrated, [unrated; third]); (newcomer, [newcomer])];
     who_validated := [] |}.

(** A player with five rates. *)
Definition overrated : FootUser := registered 10 (Some [1; 2; 3; 4; 5]%Q).

(** Somebody who is in the register and not in the next match. *)
Definition guest : FootUser :=
  {| obj := 11;
     first_name := "invite"%string;
     user_name := "Invite"%string;
     foot_rates := None;
     order_id := -1 |}.

(** The identifier of the sample players. *)
Definition sample_id (player : FootUser) : Z := Z.of_nat (obj player).

(** Eight picks. *)
Definition eight_picks : list FootUser :=
  [unrated; newcomer; third; registered 5 None; registered 6 None;
   registered 7 None; registered 8 None; registered 9 None].


(** Two captains whose rates have nearly the same mean: the floats nearest
    to 3.3, 1.1, 4.2, 3.3 and to 2.6, 4.4, 2.2, 2.7. *)
Definition close_rates_1 : list float :=
  [0x1.a666666666666p+1; 0x1.199999999999ap+0;
   0x1.0cccccccccccdp+2; 0x1.a666666666666p+1]%float.

Definition close_rates_2 : list float :=
  [0x1.4cccccccccccdp+1; 0x1.199999999999ap+2;
   0x1.199999999999ap+1; 0x1.599999999999ap+1]%float.

Definition close_1 : FootUser :=
  registered 12 (Some (map exact close_rates_1)).

Definition close_2 : FootUser :=
  registered 13 (Some (map exact close_rates_2)).

Definition close_rates64 (player : FootUser) : option (list float) :=
  match obj player with
  | 12%nat => Some close_rates_1
  | 13%nat => Some close_rates_2
  | _ => None
  end.

(** * Properties *)

(** ** The stable sort *)

Section SortedPerm.
Variable A : Type.
Variable leb : A -> A -> bool.

Lemma insert_perm (x : A) (l : list A) : Permutation (insert leb x l) (x :: l).
Proof.
  induction l as [|y l IH]; simpl.
  - apply Permutation_refl.
  - destruct (leb x y).
    + apply Permutation_refl.
    + apply perm_trans with (y :: x :: l).
      * now apply perm_skip.
      * apply perm_swap.
Qed.

Lemma sorted_perm (l : list A) : Permutation (sorted leb l) l.
Proof.
  induction l as [|x l IH]; simpl.
  - apply perm_nil.
  - apply perm_trans with (x :: sorted leb l).
    + apply insert_perm.
    + now apply perm_skip.
Qed.
End SortedPerm.

Section SortedFacts.
Variable A : Type.
Variable key : A -> Z.

Lemma insert_sorted (x : A) (l : list A) :
  StronglySorted (key_le key) l ->
  StronglySorted (key_le key) (insert (key_leb key) x l).
Proof.
  induction 1 as [|y l Hl IH Hy]; simpl.
  - constructor; constructor.
  - unfold key_leb at 1. destruct (Z.leb_spec (key x) (key y)) as [Hxy|Hxy].
    + constructor.
      * now constructor.
      * constructor; [exact Hxy|].
        eapply Forall_impl; [|exact Hy].
        unfold key_le; intros z Hz; lia.
    + constructor; [exact IH|].
      apply Permutation_Forall with (x :: l).
      * apply Permutation_sym, insert_perm.
      * constructor; [unfold key_le; lia | exact Hy].
Qed.

Lemma sorted_sorted (l : list A) :
  StronglySorted (key_le key) (sorted (key_leb key) l).
Proof.
  induction l as [|x l IH]; simpl.
  - constructor.
  - now apply insert_sorted.
Qed.

(** Players with the same key keep the order they had: the result is
    that of any stable sort, Python's included. *)
Lemma insert_stable (k : Z) (x : A) (l : list A) :
  filter (fun y => (key y =? k)%Z) (insert (key_leb key) x l) =
  filter (fun y => (key y =? k)%Z) (x :: l).
Proof.
  induction l as [|y l IH]; simpl.
  - reflexivity.
  - unfold key_leb at 1. destruct (Z.leb_spec (key x) (key y)) as [Hxy|Hxy].
    + reflexivity.
    + simpl in *. rewrite IH.
      destruct (Z.eqb_spec (key x) k) as [Hx|Hx];
        destruct (Z.eqb_spec (key y) k) as [Hy|Hy];
        try reflexivity; lia.
Qed.

Lemma sorted_stable (k : Z) (l : list A) :
  filter (fun y => (key y =? k)%Z) (sorted (key_leb key) l) =
  filter (fun y => (key y =? k)%Z) l.
Proof.
  induction l as [|x l IH]; simpl.
  - reflexivity.
  - rewrite insert_stable. simpl. now rewrite IH.
Qed.
End SortedFacts.

Lemma StronglySorted_firstn {A : Type} (R : A -> A -> Prop) (n : nat) (l : list A) :
  StronglySorted R l -> StronglySorted R (firstn n l).
Proof.
  intros H; revert n.
  induction H as [|x l Hl IH Hx]; intros [|n]; simpl; try constructor.
  - apply IH.
  - apply Forall_forall; intros y Hy.
    rewrite Forall_forall in Hx. apply Hx.
    rewrite <- (firstn_skipn n l). apply in_or_app; now left.
Qed.

Lemma Forall_firstn {A : Type} (P : A -> Prop) (n : nat) (l : list A) :
  Forall P l -> Forall P (firstn n l).
Proof.
  intros H. apply Forall_forall; intros y Hy.
  rewrite Forall_forall in H. apply H.
  rewrite <- (firstn_skipn n l). apply in_or_app; now left.
Qed.

(** [C8] The candidate pool built by [TeamKeshi.__init__] is the first ten
    of the registered players (those with [order_id >= 0]) put in ascending
    order of [order_id]: it holds no player with a negative [order_id], it
    is sorted, it has at most ten entries, and it is empty for an empty
    roster. *)
Theorem init_candidate_pool (all_players : list FootUser) :
  let pool := players (init all_players) in
  let ascending := key_le order_id in
  (exists registered : list FootUser,
      Permutation registered
        (filter (fun p => (order_id p >=? 0)%Z) all_players) /\
      StronglySorted ascending registered /\
      pool = firstn 10 registered) /\
  Forall (fun p => (0 <= order_id p)%Z) pool /\
  StronglySorted ascending pool /\
  (length pool <= 10)%nat /\
  players (init []) = [].
Proof.
  unfold init; cbn [players filter]. repeat split.
  - eexists. split; [apply sorted_perm|].
    split; [apply sorted_sorted with (key := order_id)|reflexivity].
  - apply Forall_firstn.
    apply Permutation_Forall
      with (filter (fun p => (order_id p >=? 0)%Z) all_players).
    + apply Permutation_sym, sorted_perm.
    + apply Forall_forall; intros p Hp.
      apply filter_In in Hp. destruct Hp as [_ Hp]. lia.
  - apply StronglySorted_firstn, sorted_sorted with (key := order_id).
  - apply firstn_le_length.
Qed.

(** ** Dictionary facts *)

Lemma py_eq_refl (a : FootUser) : py_eq a a = true.
Proof. apply Nat.eqb_refl. Qed.

Lemma setitem_new (d : odict) (k : FootUser) (v : list FootUser) :
  contains d k = false -> setitem d k v = d ++ [(k, v)].
Proof.
  induction d as [|[k' v'] d IH]; simpl; intros H.
  - reflexivity.
  - apply orb_false_elim in H. destruct H as [Hk Hd].
    rewrite Hk, IH by exact Hd. reflexivity.
Qed.

Lemma getitem_last (d : odict) (k : FootUser) (v : list FootUser) :
  contains d k = false -> getitem (d ++ [(k, v)]) k = Ok v.
Proof.
  induction d as [|[k' v'] d IH]; simpl; intros H.
  - now rewrite py_eq_refl.
  - apply orb_false_elim in H. destruct H as [Hk Hd].
    rewrite Hk. now apply IH.
Qed.

Lemma setitem_last (d : odict) (k : FootUser) (v w : list FootUser) :
  contains d k = false -> setitem (d ++ [(k, v)]) k w = d ++ [(k, w)].
Proof.
  induction d as [|[k' v'] d IH]; simpl; intros H.
  - now rewrite py_eq_refl.
  - apply orb_false_elim in H. destruct H as [Hk Hd].
    rewrite Hk, IH by exact Hd. reflexivity.
Qed.

Lemma contains_last (d : odict) (k : FootUser) (v : list FootUser) :
  contains (d ++ [(k, v)]) k = true.
Proof.
  unfold contains. rewrite existsb_app. simpl.
  rewrite py_eq_refl. now rewrite orb_true_r.
Qed.

(** ** [add_captain] *)

(** A player who is not yet a captain gets a team of their own, placed
    after the teams that exist; nothing bounds their number. *)
Lemma add_captain_new (self : TeamKeshi) (captain_player : FootUser) :
  contains (teams self) captain_player = false ->
  add_captain self captain_player =
    Ok (set_teams self (teams self ++ [(captain_player, [captain_player])])).
Proof.
  intros H. unfold add_captain, dict_append. rewrite H. simpl.
  rewrite (setitem_new _ _ _ H), (getitem_last _ _ _ H). simpl.
  now rewrite (setitem_last _ _ _ _ H).
Qed.

Lemma add_captain_old (self : TeamKeshi) (captain_player : FootUser) :
  contains (teams self) captain_player = true ->
  add_captain self captain_player = Ok self.
Proof. intros H. unfold add_captain. now rewrite H. Qed.

(** [C9] Adding the same captain twice is the same as adding them once:
    the first call returns a session on which the second call changes
    nothing. *)
Theorem add_captain_idempotent (self : TeamKeshi) (player : FootUser) :
  exists self1 : TeamKeshi,
    add_captain self player = Ok self1 /\
    add_captain self1 player = Ok self1.
Proof.
  destruct (contains (teams self) player) eqn:H.
  - exists self. split; now apply add_captain_old.
  - eexists. split; [now apply add_captain_new|].
    apply add_captain_old. apply contains_last.
Qed.


(** ** [is_finish] *)

Lemma is_finish_spec (self : TeamKeshi) :
  is_finish self = true <->
  teams self <> [] /\
  Forall (fun team => (5 <= length team)%nat) (values (teams self)).
Proof.
  unfold is_finish.
  destruct (teams self) as [|kv d] eqn:E; simpl length; cbn [Nat.eqb].
  - split; [discriminate|]. intros [H _]. now elim H.
  - rewrite forallb_forall, Forall_forall. split.
    + intros H. split; [discriminate|].
      intros team Hin. specialize (H team Hin).
      apply negb_true_iff, Nat.ltb_ge in H. exact H.
    + intros [_ H] team Hin. specialize (H team Hin).
      apply negb_true_iff, Nat.ltb_ge. exact H.
Qed.

Lemma is_finish_two (self : TeamKeshi) (c1 c2 : FootUser) (t1 t2 : list FootUser) :
  teams self = [(c1, t1); (c2, t2)] ->
  is_finish self = true <-> (5 <= length t1)%nat /\ (5 <= length t2)%nat.
Proof.
  intros E. rewrite is_finish_spec, E. simpl. split.
  - intros [_ H]. inversion H as [|? ? H1 H2]; subst.
    inversion H2; subst. now split.
  - intros [H1 H2]. split; [discriminate|].
    repeat constructor; assumption.
Qed.

(** What [is_finish] computes: it holds exactly when there is at least one
    team and no team has fewer than five members; for a session with two
    teams that is when both have five or more, and it never holds for a
    session without teams. *)
Theorem is_finish_iff :
  (forall self : TeamKeshi,
      is_finish self = true <->
      teams self <> [] /\
      Forall (fun team => (5 <= length team)%nat) (values (teams self))) /\
  (forall (pool : list FootUser) (c1 c2 : FootUser) (t1 t2 v : list FootUser),
      is_finish (mkTeamKeshi pool [(c1, t1); (c2, t2)] v) = true <->
      (5 <= length t1)%nat /\ (5 <= length t2)%nat) /\
  (forall pool v : list FootUser, is_finish (mkTeamKeshi pool [] v) = false).
Proof.
  split; [exact is_finish_spec|]. split.
  - intros pool c1 c2 t1 t2 v. now apply (is_finish_two (mkTeamKeshi pool _ v) c1 c2 t1 t2).
  - reflexivity.
Qed.


(** ** [whose_turn] with fewer than two captains *)

(** [C10] With fewer than two teams [whose_turn] raises [IndexError]: it
    returns no captain and no "nobody" value. *)
Theorem whose_turn_needs_two_captains (self : TeamKeshi) :
  (length (teams self) < 2)%nat -> whose_turn self = Raise IndexError.
Proof.
  intros H. unfold whose_turn, keys.
  destruct (teams self) as [|[c1 t1] [|kv d]]; simpl in *;
    try reflexivity; lia.
Qed.

(** ** [whose_turn] once both teams are complete *)

Lemma whose_turn_finished (self : TeamKeshi) (c1 c2 : FootUser)
    (t1 t2 : list FootUser) :
  teams self = [(c1, t1); (c2, t2)] ->
  is_finish self = true ->
  whose_turn self = Ok (if py_in c1 (who_validated self) then c2 else c1).
Proof.
  intros E F. unfold whose_turn. rewrite E. simpl. now rewrite F.
Qed.

(** [C7] With two complete teams [whose_turn] names the first captain when
    nobody has validated, the other captain when exactly one has, and in
    every case where somebody is still to validate, a captain who has not
    validated yet. *)
Theorem whose_turn_complete (self : TeamKeshi) (c1 c2 : FootUser)
    (t1 t2 : list FootUser) :
  teams self = [(c1, t1); (c2, t2)] ->
  (5 <= length t1)%nat ->
  (5 <= length t2)%nat ->
  let validated := fun c => py_in c (who_validated self) in
  (validated c1 = false -> validated c2 = false -> whose_turn self = Ok c1) /\
  (validated c1 = true -> validated c2 = false -> whose_turn self = Ok c2) /\
  (validated c1 = false -> validated c2 = true -> whose_turn self = Ok c1) /\
  (validated c1 = false \/ validated c2 = false ->
   exists c : FootUser,
     whose_turn self = Ok c /\ (c = c1 \/ c = c2) /\ validated c = false).
Proof.
  intros E H1 H2 validated.
  assert (F : is_finish self = true)
    by (apply (is_finish_two self c1 c2 t1 t2 E); now split).
  rewrite (whose_turn_finished self c1 c2 t1 t2 E F).
  subst validated. cbv beta.
  destruct (py_in c1 (who_validated self)) eqn:V1;
    destruct (py_in c2 (who_validated self)) eqn:V2;
    repeat split; try discriminate; try reflexivity.
  - intros [H|H]; discriminate.
  - intros _. exists c2. now repeat split; [right|].
  - intros _. exists c1. now repeat split; [left|].
  - intros _. exists c1. now repeat split; [left|].
Qed.

(** ** [whose_turn] while the draft goes on *)

Lemma Qlt_bool_iff (x y : Q) : Qlt_bool x y = true <-> (x < y)%Q.
Proof.
  unfold Qlt_bool. rewrite negb_true_iff. split.
  - intros H. apply Qnot_le_lt. intros Hle.
    apply Qle_bool_iff in Hle. congruence.
  - intros H. destruct (Qle_bool y x) eqn:E; [|reflexivity].
    apply Qle_bool_iff in E. exfalso. exact (Qlt_not_le _ _ H E).
Qed.

Lemma is_finish_short (self : TeamKeshi) (c1 c2 : FootUser)
    (t1 t2 : list FootUser) :
  teams self = [(c1, t1); (c2, t2)] ->
  (length t1 < 5)%nat ->
  is_finish self = false.
Proof.
  intros E H. destruct (is_finish self) eqn:F; [|reflexivity].
  apply (is_finish_two self c1 c2 t1 t2 E) in F. lia.
Qed.

(** The body of [whose_turn] for two distinct captains whose teams are not
    both complete. *)
Lemma whose_turn_drafting (self : TeamKeshi) (c1 c2 : FootUser)
    (t1 t2 : list FootUser) :
  teams self = [(c1, t1); (c2, t2)] ->
  obj c1 <> obj c2 ->
  is_finish self = false ->
  whose_turn self =
    if Nat.eqb (length t1) (length t2) then
      rate_1 <- average (foot_rates c1) ;;
      rate_2 <- average (foot_rates c2) ;;
      if Qlt_bool 0 rate_1 && Qlt_bool 0 rate_2 then
        Ok (if Qle_bool rate_1 rate_2 then c1 else c2)
      else Ok (if (length t1 <=? length t2)%nat then c1 else c2)
    else Ok (if (length t1 <=? length t2)%nat then c1 else c2).
Proof.
  intros E D F. unfold whose_turn. rewrite E. simpl. rewrite F.
  rewrite py_eq_refl. simpl.
  assert (N : py_eq c2 c1 = false).
  { unfold py_eq. apply Nat.eqb_neq. congruence. }
  rewrite N, py_eq_refl. simpl. reflexivity.
Qed.

(** *** The order of two averages *)






Lemma average64_shape (rates64 : option (list float)) (rates : option (list Q)) :
  option_map (@length float) rates64 = option_map (@length Q) rates ->
  match average64 rates64, average rates with
  | Ok _, Ok _ => True
  | Raise e64, Raise e => e64 = e
  | _, _ => False
  end.
Proof.
  unfold average64, average.
  destruct rates64 as [l64|]; destruct rates as [l|]; simpl; try discriminate;
    [|reflexivity].
  intros H. injection H as H. rewrite H.
  now destruct (Nat.eqb (length l) 0).
Qed.

(** The two embeddings of [whose_turn] raise the same exceptions and return
    together, as long as the rates they are given are known for the same
    players and as many: they can differ only in the captain named after
    two averages were compared. *)
Lemma whose_turn64_raises (foot_rates64 : FootUser -> option (list float))
    (self : TeamKeshi) :
  (forall player : FootUser,
      option_map (@length float) (foot_rates64 player) =
      option_map (@length Q) (foot_rates player)) ->
  match whose_turn64 foot_rates64 self, whose_turn self with
  | Ok _, Ok _ => True
  | Raise e64, Raise e => e64 = e
  | _, _ => False
  end.
Proof.
  intros H. unfold whose_turn64, whose_turn.
  destruct (list_index (keys (teams self)) 0) as [c1|]; simpl; [|reflexivity].
  destruct (list_index (keys (teams self)) 1) as [c2|]; simpl; [|reflexivity].
  destruct (is_finish self); [exact I|].
  destruct (getitem (teams self) c1) as [t1|]; simpl; [|reflexivity].
  destruct (getitem (teams self) c2) as [t2|]; simpl; [|reflexivity].
  destruct (Nat.eqb (length t1) (length t2)); [|exact I].
  pose proof (average64_shape _ _ (H c1)) as A1.
  pose proof (average64_shape _ _ (H c2)) as A2.
  destruct (average64 (foot_rates64 c1)) as [r1|];
    destruct (average (foot_rates c1)) as [q1|]; simpl; try contradiction;
    [|exact A1].
  destruct (average64 (foot_rates64 c2)) as [r2|];
    destruct (average (foot_rates c2)) as [q2|]; simpl; try contradiction;
    [|exact A2].
  destruct (PrimFloat.ltb 0 r1 && PrimFloat.ltb 0 r2);
    destruct (Qlt_bool 0 q1 && Qlt_bool 0 q2); exact I.
Qed.


(** The half of the fallback that the code provides: when both averages
    can be computed and one of them is not strictly positive, teams of the
    same size leave the pick to the first captain. *)
Lemma whose_turn_zero_average (self : TeamKeshi) (c1 c2 : FootUser)
    (t1 t2 : list FootUser) (rate_1 rate_2 : Q) :
  teams self = [(c1, t1); (c2, t2)] ->
  obj c1 <> obj c2 ->
  length t1 = length t2 ->
  (length t1 < 5)%nat ->
  average (foot_rates c1) = Ok rate_1 ->
  average (foot_rates c2) = Ok rate_2 ->
  (rate_1 <= 0)%Q \/ (rate_2 <= 0)%Q ->
  whose_turn self = Ok c1.
Proof.
  intros E D L S A1 A2 Z.
  rewrite (whose_turn_drafting self c1 c2 t1 t2 E D
             (is_finish_short self c1 c2 t1 t2 E S)).
  rewrite L, Nat.eqb_refl, A1, A2. simpl.
  rewrite Nat.leb_refl.
  assert (B : Qlt_bool 0 rate_1 && Qlt_bool 0 rate_2 = false).
  { apply andb_false_iff. unfold Qlt_bool.
    destruct Z as [Z|Z]; [left|right];
      apply negb_false_iff, Qle_bool_iff; exact Z. }
  now rewrite B.
Qed.

(** [C1] Unknown rates are not caught.  Two captains with teams of the
    same size, not complete: when the rates of the first captain are
    unknown, or those of the second while the average of the first can be
    computed, [whose_turn] raises [TypeError] ([sum(None)]) where the first
    captain was to be named. *)
Theorem whose_turn_unknown_rates (self : TeamKeshi) (c1 c2 : FootUser)
    (t1 t2 : list FootUser) :
  teams self = [(c1, t1); (c2, t2)] ->
  obj c1 <> obj c2 ->
  length t1 = length t2 ->
  (length t1 < 5)%nat ->
  foot_rates c1 = None \/
  ((exists rate_1 : Q, average (foot_rates c1) = Ok rate_1) /\
   foot_rates c2 = None) ->
  whose_turn self = Raise TypeError.
Proof.
  intros E D L S U.
  rewrite (whose_turn_drafting self c1 c2 t1 t2 E D
             (is_finish_short self c1 c2 t1 t2 E S)).
  rewrite L, Nat.eqb_refl.
  destruct U as [U|[[rate_1 A] U]].
  - now rewrite U.
  - now rewrite A, U.
Qed.

(** ** The validation handshake *)

Lemma py_in_last (c : FootUser) (l : list FootUser) : py_in c (l ++ [c]) = true.
Proof.
  unfold py_in. rewrite existsb_app. simpl.
  rewrite py_eq_refl. now rewrite orb_true_r.
Qed.

(** [C5, as the code has it] [set_validation] records a captain each time
    it is called and [is_both_validated] counts the records: it holds
    exactly when there are two.  In the handler the captain recorded is the
    one [whose_turn] names, so on two complete teams that nobody has
    validated the first answer records the first captain, the second
    answer the second captain, and the session is finalised after the
    second answer and not before. *)
Theorem validation_handshake (self : TeamKeshi) (c1 c2 : FootUser)
    (t1 t2 : list FootUser) :
  teams self = [(c1, t1); (c2, t2)] ->
  obj c1 <> obj c2 ->
  (5 <= length t1)%nat ->
  (5 <= length t2)%nat ->
  who_validated self = [] ->
  (forall (s : TeamKeshi) (c : FootUser),
      who_validated (set_validation s c) = who_validated s ++ [c]) /\
  (forall s : TeamKeshi,
      is_both_validated s = true <-> length (who_validated s) = 2%nat) /\
  is_both_validated self = false /\
  exists self1 self2 : TeamKeshi,
    on_btn_yes self = Ok self1 /\
    who_validated self1 = [c1] /\
    is_both_validated self1 = false /\
    on_btn_yes self1 = Ok self2 /\
    who_validated self2 = [c1; c2] /\
    is_both_validated self2 = true.
Proof.
  intros E D H1 H2 V.
  assert (F : is_finish self = true)
    by (apply (is_finish_two self c1 c2 t1 t2 E); now split).
  split; [reflexivity|].
  split; [intros s; unfold is_both_validated; apply Nat.eqb_eq|].
  split; [unfold is_both_validated; now rewrite V|].
  exists (set_validation self c1), (set_validation (set_validation self c1) c2).
  assert (N : py_in c1 [c1] = true) by apply (py_in_last c1 []).
  repeat split.
  - unfold on_btn_yes.
    rewrite (whose_turn_finished self c1 c2 t1 t2 E F), V. reflexivity.
  - simpl. now rewrite V.
  - unfold is_both_validated. simpl. now rewrite V.
  - unfold on_btn_yes.
    rewrite (whose_turn_finished (set_validation self c1) c1 c2 t1 t2 E).
    + simpl. rewrite V. simpl app. now rewrite N.
    + exact F.
  - simpl. now rewrite V.
  - unfold is_both_validated. simpl. now rewrite V.
Qed.

(** ** The averaged rates of [print_teams] *)

Lemma add_rates_four (a0 a1 a2 a3 : Q) (l : list Q) :
  length l = 4%nat ->
  add_rates [a0; a1; a2; a3] 0 l =
    Ok [a0 + nth 0 l 0; a1 + nth 1 l 0; a2 + nth 2 l 0; a3 + nth 3 l 0]%Q.
Proof.
  destruct l as [|x0 [|x1 [|x2 [|x3 [|x4 l]]]]]; try discriminate.
  intros _. reflexivity.
Qed.

Lemma sum_rates_known (players : list FootUser) :
  Forall (fun l => length l = 4%nat) (known_rates players) ->
  forall (a0 a1 a2 a3 : Q) (nb_totals : nat),
    sum_rates players [a0; a1; a2; a3] nb_totals =
      Ok ([fold_left Qplus (map (fun l => nth 0 l 0%Q) (known_rates players)) a0;
           fold_left Qplus (map (fun l => nth 1 l 0%Q) (known_rates players)) a1;
           fold_left Qplus (map (fun l => nth 2 l 0%Q) (known_rates players)) a2;
           fold_left Qplus (map (fun l => nth 3 l 0%Q) (known_rates players)) a3],
          (nb_totals + length (known_rates players))%nat).
Proof.
  induction players as [|player players IH]; simpl; intros H a0 a1 a2 a3 n.
  - now rewrite Nat.add_0_r.
  - destruct (foot_rates player) as [l|].
    + inversion H as [|? ? H4 H']; subst.
      rewrite (add_rates_four a0 a1 a2 a3 l H4). simpl bind.
      rewrite (IH H'). simpl. now rewrite Nat.add_succ_r.
    + now apply IH.
Qed.

(** As long as one player of the team has known rates, each of length
    four, the loop of [print_teams] computes the averages the
    specification describes: players without rates count neither in the
    sums nor in the divisor. *)
Lemma team_rates_spec (players : list FootUser) :
  Forall (fun l => length l = 4%nat) (known_rates players) ->
  known_rates players <> [] ->
  team_rates players =
    Ok [spec_average 0 players; spec_average 1 players;
        spec_average 2 players; spec_average 3 players].
Proof.
  intros H N. unfold team_rates.
  rewrite (sum_rates_known players H). simpl.
  unfold div_at, py_div, spec_average, sum.
  destruct (length (known_rates players)) as [|n] eqn:L.
  - apply length_zero_iff_nil in L. contradiction.
  - reflexivity.
Qed.

Lemma sum_rates_unknown (players : list FootUser) (rates : list Q) (nb_totals : nat) :
  Forall (fun player => foot_rates player = None) players ->
  sum_rates players rates nb_totals = Ok (rates, nb_totals).
Proof.
  induction 1 as [|player players U _ IH]; simpl.
  - reflexivity.
  - now rewrite U.
Qed.

(** A team none of whose players has known rates divides by zero. *)
Lemma team_rates_unknown (players : list FootUser) :
  Forall (fun player => foot_rates player = None) players ->
  team_rates players = Raise ZeroDivisionError.
Proof.
  intros U. unfold team_rates.
  now rewrite (sum_rates_unknown players _ _ U).
Qed.

(** What [print_teams] writes for one team when the rates are shown and
    the players are left in the order they were picked. *)
Lemma print_team_rates (self : TeamKeshi) (first captain : FootUser)
    (players : list FootUser) :
  list_index (keys (teams self)) 0 = Ok first ->
  Forall (fun l => length l = 4%nat) (known_rates players) ->
  known_rates players <> [] ->
  print_team self false true captain players =
    Ok (Header (py_eq captain first)
        :: TeamRates (spec_average 0 players) (spec_average 1 players)
                     (spec_average 2 players) (spec_average 3 players)
        :: entries 0 players ++ [Blank]).
Proof.
  intros K H N. unfold print_team.
  rewrite K, (team_rates_spec players H N). reflexivity.
Qed.

Lemma print_team_unknown (self : TeamKeshi) (sort : bool) (captain : FootUser)
    (players : list FootUser) :
  Forall (fun player => foot_rates player = None) players ->
  exists e : exn, print_team self sort true captain players = Raise e.
Proof.
  intros U. unfold print_team.
  destruct (list_index (keys (teams self)) 0) as [first|e]; simpl.
  - assert (U' : Forall (fun player => foot_rates player = None)
                   (if sort
                    then sorted (fun x y => String.leb (first_name x) (first_name y))
                                players
                    else players)).
    { destruct sort; [|exact U].
      apply Permutation_Forall with players; [|exact U].
      apply Permutation_sym, sorted_perm. }
    rewrite (team_rates_unknown _ U'). simpl. now eexists.
  - now eexists.
Qed.

Lemma print_items_unknown (self : TeamKeshi) (sort : bool) (items : odict)
    (team : list FootUser) :
  In team (values items) ->
  Forall (fun player => foot_rates player = None) team ->
  exists e : exn, print_items self sort true items = Raise e.
Proof.
  intros I U. induction items as [|[captain players] items IH]; simpl in *.
  - contradiction.
  - destruct I as [I|I].
    + subst players.
      destruct (print_team_unknown self sort captain team U) as [e R].
      rewrite R. simpl. now eexists.
    + destruct (print_team self sort true captain players) as [txt|e]; simpl.
      * destruct (IH I) as [e R]. rewrite R. simpl. now eexists.
      * now eexists.
Qed.

(** [C6] A team in which no player has known rates makes [print_teams]
    raise when the rates are shown: the division by the number of rated
    players is a division by zero, where an undefined or zero average was
    to be printed. *)
Theorem print_teams_no_known_rates (self : TeamKeshi) (sort : bool)
    (team : list FootUser) :
  In team (values (teams self)) ->
  Forall (fun player => foot_rates player = None) team ->
  exists e : exn, print_teams self sort true = Raise e.
Proof.
  intros I U. unfold print_teams.
  exact (print_items_unknown self sort (teams self) team I U).
Qed.

(** ** The sample sessions under the operations above *)

(** With a team of one player, the only team there is, five strong,
    [is_finish] holds although a second team does not exist. *)
Lemma is_finish_lone_team :
  (s <- add_captain (init roster) strong ;;
   s <- add_player s strong unrated ;;
   s <- add_player s strong newcomer ;;
   s <- add_player s strong third ;;
   add_player s strong (registered 5 None)) = Ok lone_team /\
  length (teams lone_team) = 1%nat /\
  is_finish lone_team = true.
Proof. repeat split. Qed.


(** The same captain validates twice: both validations are recorded and
    the session counts as validated by both captains, the second of whom
    never validated. *)
Lemma set_validation_twice :
  let self := set_validation (set_validation complete strong) strong in
  is_finish complete = true /\
  who_validated self = [strong; strong] /\
  is_both_validated self = true /\
  py_in weak (who_validated self) = false.
Proof. repeat split. Qed.


Lemma whose_turn_needs_two_captains_witness :
  (length (teams lone_team) < 2)%nat /\
  whose_turn lone_team = Raise IndexError.
Proof.
  assert (H : (length (teams lone_team) < 2)%nat) by apply le_n.
  split; [exact H|].
  exact (whose_turn_needs_two_captains lone_team H).
Defined.

Lemma whose_turn_complete_witness :
  whose_turn complete = Ok strong.
Proof.
  refine (proj1 (whose_turn_complete complete strong weak _ _
                   eq_refl (le_n 5) (le_n 5)) eq_refl eq_refl).
Defined.


(** Rounding decides between averages that are nearly equal: of the two
    sample captains the first has the lower mean, by less than the last
    bit of a float, and the averages the code computes are in the other
    order, so the second captain picks. *)
Lemma whose_turn64_rounding :
  (exists q1 q2 : Q,
      average (foot_rates close_1) = Ok q1 /\
      average (foot_rates close_2) = Ok q2 /\
      (q1 < q2)%Q) /\
  average64 (close_rates64 close_1) = Ok 0x1.7cccccccccccep+1%float /\
  average64 (close_rates64 close_2) = Ok 0x1.7ccccccccccccp+1%float /\
  whose_turn64 close_rates64 (paired close_1 close_2) = Ok close_2.
Proof.
  split.
  - do 2 eexists. split; [reflexivity|]. split; [reflexivity|].
    vm_compute. reflexivity.
  - repeat split; vm_compute; reflexivity.
Qed.

Lemma validation_handshake_witness :
  exists self1 self2 : TeamKeshi,
    on_btn_yes complete = Ok self1 /\
    who_validated self1 = [strong] /\
    is_both_validated self1 = false /\
    on_btn_yes self1 = Ok self2 /\
    who_validated self2 = [strong; weak] /\
    is_both_validated self2 = true.
Proof.
  refine (proj2 (proj2 (proj2 (validation_handshake complete strong weak _ _
                                 eq_refl _ (le_n 5) (le_n 5) eq_refl)))).
  discriminate.
Defined.

Lemma whose_turn_unknown_rates_witness :
  (s <- add_captain (init roster) unrated ;;
   s <- add_captain s newcomer ;;
   whose_turn s) = Raise TypeError /\
  (s <- add_captain (init roster) strong ;;
   s <- add_captain s unrated ;;
   whose_turn s) = Raise TypeError.
Proof.
  split.
  - refine (whose_turn_unknown_rates (paired unrated newcomer) unrated newcomer
              [unrated] [newcomer] eq_refl _ eq_refl _ (or_introl eq_refl)).
    + discriminate.
    + repeat constructor.
  - refine (whose_turn_unknown_rates (paired strong unrated) strong unrated
              [strong] [unrated] eq_refl _ eq_refl _
              (or_intror (conj (ex_intro _ (16 # 4) eq_refl) eq_refl))).
    + discriminate.
    + repeat constructor.
Defined.

Lemma print_teams_no_known_rates_witness :
  (exists e : exn, print_teams (paired unrated strong) false true = Raise e) /\
  (s <- add_captain (init roster) unrated ;;
   s <- add_captain s strong ;;
   print_teams s false true) = Raise ZeroDivisionError.
Proof.
  split; [|reflexivity].
  refine (print_teams_no_known_rates (paired unrated strong) false [unrated]
            (or_introl eq_refl) _).
  repeat constructor.
Defined.

(** * Further properties of the draft *)

(** ** Whose turn *)

(** [X1] Whatever [whose_turn] returns is one of the first two captains:
    never a player who is only a member of a team, never a third captain. *)
Theorem whose_turn_is_captain (self : TeamKeshi) (captain : FootUser) :
  whose_turn self = Ok captain ->
  list_index (keys (teams self)) 0 = Ok captain \/
  list_index (keys (teams self)) 1 = Ok captain.
Proof.
  unfold whose_turn.
  destruct (list_index (keys (teams self)) 0) as [c1|e1]; simpl; [|discriminate].
  destruct (list_index (keys (teams self)) 1) as [c2|e2]; simpl; [|discriminate].
  assert (P : forall b : bool,
             Ok (if b then c1 else c2) = Ok captain ->
             Ok c1 = Ok captain \/ Ok c2 = Ok captain)
    by (intros [|] H; [left|right]; exact H).
  assert (P' : forall b : bool,
             Ok (if b then c2 else c1) = Ok captain ->
             Ok c1 = Ok captain \/ Ok c2 = Ok captain)
    by (intros [|] H; [right|left]; exact H).
  destruct (is_finish self); [apply P'|].
  destruct (getitem (teams self) c1) as [t1|]; simpl; [|discriminate].
  destruct (getitem (teams self) c2) as [t2|]; simpl; [|discriminate].
  destruct (Nat.eqb (length t1) (length t2)); [|apply P].
  destruct (average (foot_rates c1)) as [r1|]; simpl; [|discriminate].
  destruct (average (foot_rates c2)) as [r2|]; simpl; [|discriminate].
  destruct (Qlt_bool 0 r1 && Qlt_bool 0 r2); apply P.
Qed.

(** [X2] When the two teams differ in size and are not both complete, the
    captain of the smaller team picks, and the rates are not looked at:
    unknown rates raise nothing here. *)
Theorem whose_turn_smaller_team (self : TeamKeshi) (c1 c2 : FootUser)
    (t1 t2 : list FootUser) :
  teams self = [(c1, t1); (c2, t2)] ->
  obj c1 <> obj c2 ->
  (length t1 < 5 \/ length t2 < 5)%nat ->
  ((length t1 < length t2)%nat -> whose_turn self = Ok c1) /\
  ((length t2 < length t1)%nat -> whose_turn self = Ok c2).
Proof.
  intros E D S.
  assert (F : is_finish self = false).
  { destruct (is_finish self) eqn:F; [|reflexivity].
    apply (is_finish_two self c1 c2 t1 t2 E) in F. lia. }
  rewrite (whose_turn_drafting self c1 c2 t1 t2 E D F).
  split; intros L.
  - replace (Nat.eqb (length t1) (length t2)) with false
      by (symmetry; apply Nat.eqb_neq; lia).
    replace (length t1 <=? length t2)%nat with true
      by (symmetry; apply Nat.leb_le; lia).
    reflexivity.
  - replace (Nat.eqb (length t1) (length t2)) with false
      by (symmetry; apply Nat.eqb_neq; lia).
    replace (length t1 <=? length t2)%nat with false
      by (symmetry; apply Nat.leb_gt; lia).
    reflexivity.
Qed.

(** ** Adding a player to a team *)

Lemma py_eq_true (a b : FootUser) : py_eq a b = true <-> obj a = obj b.
Proof. apply Nat.eqb_eq. Qed.

Lemma getitem_missing (d : odict) (k : FootUser) :
  contains d k = false -> getitem d k = Raise KeyError.
Proof.
  induction d as [|[k' v] d IH]; simpl; intros H.
  - reflexivity.
  - apply orb_false_elim in H. destruct H as [Hk Hd].
    rewrite Hk. now apply IH.
Qed.

Lemma getitem_setitem (d : odict) (k : FootUser) (v w : list FootUser) :
  getitem d k = Ok v -> getitem (setitem d k w) k = Ok w.
Proof.
  induction d as [|[k' v'] d IH]; simpl; [discriminate|].
  destruct (py_eq k k') eqn:E; simpl; rewrite E; [reflexivity|exact IH].
Qed.

Lemma getitem_setitem_other (d : odict) (k k' : FootUser) (w : list FootUser) :
  py_eq k' k = false ->
  contains d k = true ->
  getitem (setitem d k w) k' = getitem d k'.
Proof.
  intros N. induction d as [|[k0 v0] d IH]; simpl; [discriminate|].
  destruct (py_eq k k0) eqn:E; simpl.
  - intros _. destruct (py_eq k' k0) eqn:E'; [|reflexivity].
    apply py_eq_true in E, E'.
    assert (py_eq k' k = true) by (apply py_eq_true; congruence).
    congruence.
  - intros C. now rewrite (IH C).
Qed.

Lemma keys_setitem (d : odict) (k : FootUser) (w : list FootUser) :
  contains d k = true -> keys (setitem d k w) = keys d.
Proof.
  induction d as [|[k0 v0] d IH]; simpl; [discriminate|].
  destruct (py_eq k k0) eqn:E; simpl; [reflexivity|].
  intros C. now rewrite (IH C).
Qed.

Lemma getitem_contains (d : odict) (k : FootUser) (v : list FootUser) :
  getitem d k = Ok v -> contains d k = true.
Proof.
  intros H. destruct (contains d k) eqn:C; [reflexivity|].
  rewrite (getitem_missing d k C) in H. discriminate.
Qed.

(** [X3] [add_player] for somebody who is not a captain raises [KeyError]:
    no team is created for them. *)
Theorem add_player_not_captain (self : TeamKeshi) (captain_player player : FootUser) :
  contains (teams self) captain_player = false ->
  add_player self captain_player player = Raise KeyError.
Proof.
  intros H. unfold add_player, dict_append.
  now rewrite (getitem_missing _ _ H).
Qed.

(** [X4] [add_player] for a captain puts the player at the end of that
    captain's team and touches nothing else: the captains and their order,
    the other teams, the candidates and the validations stay as they were.
    The player is not checked: one already in a team is added again. *)
Theorem add_player_appends (self : TeamKeshi) (captain_player player : FootUser)
    (team : list FootUser) :
  getitem (teams self) captain_player = Ok team ->
  exists self' : TeamKeshi,
    add_player self captain_player player = Ok self' /\
    getitem (teams self') captain_player = Ok (team ++ [player]) /\
    keys (teams self') = keys (teams self) /\
    (forall other : FootUser,
        py_eq other captain_player = false ->
        getitem (teams self') other = getitem (teams self) other) /\
    players self' = players self /\
    who_validated self' = who_validated self.
Proof.
  intros G. pose proof (getitem_contains _ _ _ G) as C.
  unfold add_player, dict_append. rewrite G. simpl.
  eexists. split; [reflexivity|]. cbn [teams set_teams players who_validated].
  repeat split.
  - exact (getitem_setitem _ _ _ _ G).
  - exact (keys_setitem _ _ _ C).
  - intros other N. exact (getitem_setitem_other _ _ _ _ N C).
Qed.

(** ** The draft, pick after pick *)

Lemma whose_turn_drafting_cases (self : TeamKeshi) (c1 c2 : FootUser)
    (t1 t2 : list FootUser) (captain : FootUser) :
  teams self = [(c1, t1); (c2, t2)] ->
  obj c1 <> obj c2 ->
  is_finish self = false ->
  whose_turn self = Ok captain ->
  (captain = c1 /\ (length t1 <= length t2)%nat) \/
  (captain = c2 /\ (length t2 <= length t1)%nat).
Proof.
  intros E D F. rewrite (whose_turn_drafting self c1 c2 t1 t2 E D F).
  destruct (Nat.eqb_spec (length t1) (length t2)) as [L|L].
  - intros H.
    assert (C : captain = c1 \/ captain = c2).
    { destruct (average (foot_rates c1)) as [r1|]; simpl in H; [|discriminate].
      destruct (average (foot_rates c2)) as [r2|]; simpl in H; [|discriminate].
      destruct (Qlt_bool 0 r1 && Qlt_bool 0 r2);
        [destruct (Qle_bool r1 r2)|destruct (length t1 <=? length t2)%nat];
        injection H as <-; auto. }
    destruct C; [left|right]; split; auto; lia.
  - destruct (Nat.leb_spec (length t1) (length t2)) as [L'|L'];
      intros H; injection H as <-; [left|right]; split; auto; lia.
Qed.

Lemma add_player_first (self : TeamKeshi) (c1 c2 player : FootUser)
    (t1 t2 : list FootUser) :
  teams self = [(c1, t1); (c2, t2)] ->
  add_player self c1 player = Ok (set_teams self [(c1, t1 ++ [player]); (c2, t2)]).
Proof.
  intros E. unfold add_player, dict_append. rewrite E.
  cbn [getitem]. rewrite py_eq_refl. cbn [bind setitem].
  now rewrite py_eq_refl.
Qed.

Lemma add_player_second (self : TeamKeshi) (c1 c2 player : FootUser)
    (t1 t2 : list FootUser) :
  teams self = [(c1, t1); (c2, t2)] ->
  obj c1 <> obj c2 ->
  add_player self c2 player = Ok (set_teams self [(c1, t1); (c2, t2 ++ [player])]).
Proof.
  intros E D. unfold add_player, dict_append. rewrite E.
  assert (N : py_eq c2 c1 = false) by (apply Nat.eqb_neq; congruence).
  cbn [getitem]. rewrite N, py_eq_refl. cbn [bind setitem].
  now rewrite N, py_eq_refl.
Qed.

Lemma on_btn_pick_turn (user_id : FootUser -> Z) (self : TeamKeshi)
    (player captain : FootUser) :
  whose_turn self = Ok captain ->
  on_btn_pick user_id self player = add_player self captain player.
Proof.
  intros W. unfold on_btn_pick. rewrite W. simpl. now rewrite Z.eqb_refl.
Qed.

Lemma on_btn_pick_ok (user_id : FootUser -> Z) (self self' : TeamKeshi)
    (player : FootUser) :
  on_btn_pick user_id self player = Ok self' ->
  exists captain : FootUser,
    whose_turn self = Ok captain /\ add_player self captain player = Ok self'.
Proof.
  unfold on_btn_pick.
  destruct (whose_turn self) as [captain|e]; simpl; [|discriminate].
  rewrite Z.eqb_refl. intros H. now exists captain.
Qed.

(** One pick on two teams that are not both complete: the player joins the
    team that is not the larger one. *)
Lemma on_btn_pick_step (user_id : FootUser -> Z) (self self' : TeamKeshi)
    (c1 c2 player : FootUser) (t1 t2 : list FootUser) :
  teams self = [(c1, t1); (c2, t2)] ->
  obj c1 <> obj c2 ->
  (length t1 + length t2 < 10)%nat ->
  on_btn_pick user_id self player = Ok self' ->
  (teams self' = [(c1, t1 ++ [player]); (c2, t2)] /\
   (length t1 <= length t2)%nat) \/
  (teams self' = [(c1, t1); (c2, t2 ++ [player])] /\
   (length t2 <= length t1)%nat).
Proof.
  intros E D S P.
  assert (F : is_finish self = false).
  { destruct (is_finish self) eqn:F; [|reflexivity].
    apply (is_finish_two self c1 c2 t1 t2 E) in F. lia. }
  destruct (on_btn_pick_ok user_id self self' player P) as [captain [W A]].
  destruct (whose_turn_drafting_cases self c1 c2 t1 t2 captain E D F W)
    as [[-> L]|[-> L]].
  - rewrite (add_player_first self c1 c2 player t1 t2 E) in A.
    injection A as <-. now left.
  - rewrite (add_player_second self c1 c2 player t1 t2 E D) in A.
    injection A as <-. now right.
Qed.

Lemma picks_balanced (user_id : FootUser -> Z) (c1 c2 : FootUser)
    (chosen : list FootUser) :
  obj c1 <> obj c2 ->
  forall (self self' : TeamKeshi) (t1 t2 members : list FootUser),
    teams self = [(c1, t1); (c2, t2)] ->
    (length t1 <= length t2 + 1)%nat ->
    (length t2 <= length t1 + 1)%nat ->
    (length t1 + length t2 + length chosen <= 10)%nat ->
    Permutation (t1 ++ t2) members ->
    picks user_id self chosen = Ok self' ->
    exists t1' t2' : list FootUser,
      teams self' = [(c1, t1'); (c2, t2')] /\
      (length t1' + length t2' = length t1 + length t2 + length chosen)%nat /\
      (length t1' <= length t2' + 1)%nat /\
      (length t2' <= length t1' + 1)%nat /\
      Permutation (t1' ++ t2') (members ++ chosen).
Proof.
  intros D. induction chosen as [|player chosen IH];
    intros self self' t1 t2 members E B1 B2 S M P; simpl in *.
  - injection P as <-. exists t1, t2. rewrite app_nil_r.
    repeat split; auto; lia.
  - destruct (on_btn_pick user_id self player) as [self1|e] eqn:P1;
      simpl in P; [|discriminate].
    assert (S1 : (length t1 + length t2 < 10)%nat) by lia.
    destruct (on_btn_pick_step user_id self self1 c1 c2 player t1 t2 E D S1 P1)
      as [[E1 L]|[E1 L]].
    + destruct (IH self1 self' (t1 ++ [player]) t2 (members ++ [player]) E1)
        as [t1' [t2' [E' [S' [B1' [B2' M']]]]]];
        try (rewrite ?length_app; simpl; lia); try exact P.
      * apply perm_trans with ((t1 ++ t2) ++ [player]).
        -- rewrite <- !app_assoc. apply Permutation_app_head.
           apply Permutation_app_comm.
        -- now apply Permutation_app_tail.
      * exists t1', t2'. rewrite length_app in S'. simpl in S'.
        rewrite <- app_assoc in M'. repeat split; auto; lia.
    + destruct (IH self1 self' t1 (t2 ++ [player]) (members ++ [player]) E1)
        as [t1' [t2' [E' [S' [B1' [B2' M']]]]]];
        try (rewrite ?length_app; simpl; lia); try exact P.
      * rewrite app_assoc. now apply Permutation_app_tail.
      * exists t1', t2'. rewrite length_app in S'. simpl in S'.
        rewrite <- app_assoc in M'. repeat split; auto; lia.
Qed.

(** [X5] Starting from the two captains alone, as long as every pick
    succeeds and there are at most eight of them, the teams never differ by
    more than one player, together they hold the two captains and the
    players picked, each once, and they are complete after the eighth pick
    and not before. *)
Theorem picks_keep_balance (user_id : FootUser -> Z) (self self' : TeamKeshi)
    (c1 c2 : FootUser) (chosen : list FootUser) :
  teams self = [(c1, [c1]); (c2, [c2])] ->
  obj c1 <> obj c2 ->
  (length chosen <= 8)%nat ->
  picks user_id self chosen = Ok self' ->
  exists t1 t2 : list FootUser,
    teams self' = [(c1, t1); (c2, t2)] /\
    (length t1 + length t2 = 2 + length chosen)%nat /\
    (length t1 <= length t2 + 1)%nat /\
    (length t2 <= length t1 + 1)%nat /\
    Permutation (t1 ++ t2) (c1 :: c2 :: chosen) /\
    (is_finish self' = true <-> length chosen = 8%nat).
Proof.
  intros E D L P.
  destruct (picks_balanced user_id c1 c2 chosen D self self' [c1] [c2] [c1; c2] E)
    as [t1 [t2 [E' [S [B1 [B2 M]]]]]];
    simpl; try lia; try apply Permutation_refl; try exact P.
  exists t1, t2. simpl in S. repeat split; auto.
  - intros F. apply (is_finish_two self' c1 c2 t1 t2 E') in F. lia.
  - intros L8. apply (is_finish_two self' c1 c2 t1 t2 E'). lia.
Qed.

Lemma whose_turn_two_rated (self : TeamKeshi) (c1 c2 : FootUser)
    (t1 t2 : list FootUser) (rate_1 rate_2 : Q) :
  teams self = [(c1, t1); (c2, t2)] ->
  obj c1 <> obj c2 ->
  average (foot_rates c1) = Ok rate_1 ->
  average (foot_rates c2) = Ok rate_2 ->
  whose_turn self = Ok c1 \/ whose_turn self = Ok c2.
Proof.
  intros E D A1 A2. destruct (is_finish self) eqn:F.
  - rewrite (whose_turn_finished self c1 c2 t1 t2 E F).
    destruct (py_in c1 (who_validated self)); auto.
  - rewrite (whose_turn_drafting self c1 c2 t1 t2 E D F), A1, A2. simpl.
    destruct (Nat.eqb (length t1) (length t2));
      [destruct (Qlt_bool 0 rate_1 && Qlt_bool 0 rate_2);
       [destruct (Qle_bool rate_1 rate_2)|]|];
      try destruct (length t1 <=? length t2)%nat; auto.
Qed.

(** [X6] When the rating average of both captains can be computed, the
    statements of a pick never raise, whatever the players chosen and
    however many: [whose_turn] names one of the two captains, [add_player]
    adds to the team of that captain, and the two captains keep their
    teams.  This is about those statements only: the message the handler
    writes afterwards is built by [get_msg], which can raise. *)
Theorem picks_succeed (user_id : FootUser -> Z) (c1 c2 : FootUser)
    (rate_1 rate_2 : Q) (chosen : list FootUser) :
  obj c1 <> obj c2 ->
  average (foot_rates c1) = Ok rate_1 ->
  average (foot_rates c2) = Ok rate_2 ->
  forall (self : TeamKeshi) (t1 t2 : list FootUser),
    teams self = [(c1, t1); (c2, t2)] ->
    exists (self' : TeamKeshi) (t1' t2' : list FootUser),
      picks user_id self chosen = Ok self' /\
      teams self' = [(c1, t1'); (c2, t2')].
Proof.
  intros D A1 A2. induction chosen as [|player chosen IH]; intros self t1 t2 E.
  - exists self, t1, t2. now split.
  - simpl.
    destruct (whose_turn_two_rated self c1 c2 t1 t2 rate_1 rate_2 E D A1 A2)
      as [W|W]; rewrite (on_btn_pick_turn user_id self player _ W).
    + rewrite (add_player_first self c1 c2 player t1 t2 E). simpl.
      now apply (IH _ (t1 ++ [player]) t2).
    + rewrite (add_player_second self c1 c2 player t1 t2 E D). simpl.
      now apply (IH _ t1 (t2 ++ [player])).
Qed.

(** ** Keyboards *)

Lemma keyboard_rows_single (players : list string) :
  forall (idx : nat) (keyboard : list (list InlineKeyboardButton)),
    keyboard_rows 1 idx players keyboard [] =
      (keyboard ++ map (fun player => [mkButton player player]) players, []).
Proof.
  induction players as [|player players IH]; intros idx keyboard; simpl.
  - now rewrite app_nil_r.
  - rewrite IH, <- app_assoc. reflexivity.
Qed.

Lemma create_player_keyboard_single (players : list string) :
  create_player_keyboard players =
    map (fun player => [mkButton player player]) players
    ++ [[mkButton MotFr.cancel MotFr.cancel]].
Proof.
  unfold create_player_keyboard. now rewrite keyboard_rows_single.
Qed.

(** [X7] The keyboard built from a list of names has one row per name, in
    the order of the list, each row one button whose text and callback
    data are the name, and a last row with the cancel button: an empty
    list gives the cancel button alone. *)
Theorem create_player_keyboard_rows (players : list string) :
  create_player_keyboard players =
    map (fun player => [mkButton player player]) players
    ++ [[mkButton MotFr.cancel MotFr.cancel]].
Proof. exact (create_player_keyboard_single players). Qed.





Lemma split_colon_0_plain (s : string) :
  has_colon s = false -> split_colon_0 s = s.
Proof.
  induction s as [|c s IH]; simpl; [reflexivity|].
  intros H. apply orb_false_elim in H. destruct H as [Hc Hs].
  rewrite Hc. now rewrite IH.
Qed.

Lemma split_colon_0_prefix (s rest : string) :
  has_colon s = false ->
  split_colon_0 (s ++ String ":"%char rest) = s.
Proof.
  induction s as [|c s IH]; simpl.
  - reflexivity.
  - intros H. apply orb_false_elim in H. destruct H as [Hc Hs].
    rewrite Hc. now rewrite IH.
Qed.

Lemma split_colon_0_no_colon (s : string) : has_colon (split_colon_0 s) = false.
Proof.
  induction s as [|c s IH]; simpl; [reflexivity|].
  destruct (Ascii.eqb c ":"%char) eqn:E; simpl; [reflexivity|].
  now rewrite E.
Qed.

(** [X9] The handler finds the player of a button by the part of its data
    that precedes the first colon.  That part is the name of the player,
    with or without rates after it, exactly when the name has no colon. *)
Theorem player_label_round_trip (format_number : Q -> string) (player : FootUser) :
  split_colon_0 (player_label format_number player) = user_name player <->
  has_colon (user_name player) = false.
Proof.
  split.
  - intros H. rewrite <- H. apply split_colon_0_no_colon.
  - intros H. unfold player_label.
    destruct (foot_rates player) as [l|].
    + apply (split_colon_0_prefix _ _ H).
    + now apply split_colon_0_plain.
Qed.


(** ** Rates that do not fit *)

Lemma list_index_ok {A : Type} (l : list A) (idx : nat) :
  (idx < length l)%nat -> exists a : A, list_index l idx = Ok a.
Proof.
  intros H. unfold list_index.
  destruct (nth_error l idx) as [a|] eqn:E; [now exists a|].
  apply nth_error_None in E. lia.
Qed.

Lemma list_index_out {A : Type} (l : list A) (idx : nat) :
  (length l <= idx)%nat -> list_index l idx = Raise IndexError.
Proof.
  intros H. unfold list_index.
  now rewrite (proj2 (nth_error_None l idx) H).
Qed.

Lemma list_set_ok (rates : list Q) :
  forall (idx : nat) (v : Q),
    (idx < length rates)%nat ->
    exists rates' : list Q,
      list_set rates idx v = Ok rates' /\ length rates' = length rates.
Proof.
  induction rates as [|r rates IH]; intros [|idx] v H; simpl in *; try lia.
  - now eexists.
  - destruct (IH idx v) as [rates' [E L]]; [lia|].
    rewrite E. simpl. eexists. split; [reflexivity|]. simpl. now rewrite L.
Qed.

Lemma add_rates_fits (l : list Q) :
  forall (rates : list Q) (idx : nat),
    (idx + length l <= length rates)%nat ->
    exists rates' : list Q,
      add_rates rates idx l = Ok rates' /\ length rates' = length rates.
Proof.
  induction l as [|rate l IH]; intros rates idx H; simpl in *.
  - now exists rates.
  - destruct (list_index_ok rates idx) as [r E]; [lia|]. rewrite E. simpl.
    destruct (list_set_ok rates idx (r + rate)%Q) as [rates1 [E1 L1]]; [lia|].
    rewrite E1. simpl.
    destruct (IH rates1 (S idx)) as [rates' [E' L']]; [lia|].
    exists rates'. split; [exact E'|congruence].
Qed.

Lemma add_rates_overflow (l : list Q) :
  forall (rates : list Q) (idx : nat),
    (idx <= length rates)%nat ->
    (length rates < idx + length l)%nat ->
    add_rates rates idx l = Raise IndexError.
Proof.
  induction l as [|rate l IH]; intros rates idx H1 H2; simpl in *; [lia|].
  destruct (Nat.eq_dec idx (length rates)) as [E|N].
  - rewrite list_index_out by lia. reflexivity.
  - destruct (list_index_ok rates idx) as [r E]; [lia|]. rewrite E. simpl.
    destruct (list_set_ok rates idx (r + rate)%Q) as [rates1 [E1 L1]]; [lia|].
    rewrite E1. simpl. apply IH; lia.
Qed.

Lemma sum_rates_overflow (players : list FootUser) :
  forall (rates : list Q) (nb_totals : nat),
    length rates = 4%nat ->
    (exists (player : FootUser) (l : list Q),
        In player players /\ foot_rates player = Some l /\ (4 < length l)%nat) ->
    sum_rates players rates nb_totals = Raise IndexError.
Proof.
  induction players as [|p players IH]; intros rates n L [player [l [I [F G]]]];
    simpl in *; [contradiction|].
  destruct (foot_rates p) as [lp|] eqn:Fp.
  - destruct (Nat.le_gt_cases (length lp) 4) as [S|S].
    + destruct (add_rates_fits lp rates 0) as [rates' [E' L']]; [simpl; lia|].
      rewrite E'. simpl. apply IH; [congruence|].
      destruct I as [->|I]; [|now exists player, l].
      rewrite Fp in F. injection F as ->. lia.
    + rewrite add_rates_overflow by (simpl; lia). reflexivity.
  - apply IH; [exact L|]. destruct I as [->|I]; [congruence|].
    now exists player, l.
Qed.

Lemma print_team_raises (self : TeamKeshi) (sort : bool) (captain : FootUser)
    (players : list FootUser) :
  (forall ordered : list FootUser,
      Permutation ordered players ->
      exists e : exn, team_rates ordered = Raise e) ->
  exists e : exn, print_team self sort true captain players = Raise e.
Proof.
  intros R. unfold print_team.
  destruct (list_index (keys (teams self)) 0) as [first|e]; simpl;
    [|now eexists].
  destruct (R (if sort
               then sorted (fun x y => String.leb (first_name x) (first_name y))
                           players
               else players)) as [e E].
  - destruct sort; [apply sorted_perm|apply Permutation_refl].
  - rewrite E. simpl. now eexists.
Qed.

Lemma print_items_raises (self : TeamKeshi) (sort : bool) (items : odict)
    (team : list FootUser) :
  In team (values items) ->
  (forall ordered : list FootUser,
      Permutation ordered team ->
      exists e : exn, team_rates ordered = Raise e) ->
  exists e : exn, print_items self sort true items = Raise e.
Proof.
  intros I R. induction items as [|[captain players] items IH]; simpl in *.
  - contradiction.
  - destruct I as [I|I].
    + subst players.
      destruct (print_team_raises self sort captain team R) as [e E].
      rewrite E. simpl. now eexists.
    + destruct (print_team self sort true captain players) as [txt|e]; simpl.
      * destruct (IH I) as [e E]. rewrite E. simpl. now eexists.
      * now eexists.
Qed.

(** [X11] Four sums are kept and no more: a player with more than four
    rates makes the averaging of their team raise [IndexError], and with it
    [print_teams] whenever the rates are shown, in either order of the
    players. *)
Theorem print_teams_too_many_rates (self : TeamKeshi) (sort : bool)
    (team : list FootUser) (player : FootUser) (l : list Q) :
  In team (values (teams self)) ->
  In player team ->
  foot_rates player = Some l ->
  (4 < length l)%nat ->
  team_rates team = Raise IndexError /\
  exists e : exn, print_teams self sort true = Raise e.
Proof.
  intros T I F G.
  assert (R : forall ordered : list FootUser,
             Permutation ordered team -> team_rates ordered = Raise IndexError).
  { intros ordered P. unfold team_rates.
    rewrite (sum_rates_overflow ordered [0; 0; 0; 0]%Q 0 eq_refl); [reflexivity|].
    exists player, l. repeat split; auto.
    apply (Permutation_in _ (Permutation_sym P) I). }
  split; [apply R, Permutation_refl|].
  unfold print_teams. apply (print_items_raises self sort (teams self) team T).
  intros ordered P. exists IndexError. now apply R.
Qed.

(** ** The teams without their rates *)

Lemma entries_length (players : list FootUser) :
  forall idx : nat, length (entries idx players) = length players.
Proof.
  induction players as [|player players IH]; intros idx; simpl; auto.
Qed.

Lemma entries_in (players : list FootUser) (player : FootUser) :
  In player players ->
  forall idx : nat,
    exists rank : nat, In (Entry rank (user_name player)) (entries idx players).
Proof.
  induction players as [|p players IH]; intros I idx; simpl in *.
  - contradiction.
  - destruct I as [->|I].
    + exists (idx + 1)%nat. now left.
    + destruct (IH I (S idx)) as [rank R]. exists rank. now right.
Qed.

Lemma print_items_plain (self : TeamKeshi) (sort : bool) (first : FootUser)
    (items : odict) :
  list_index (keys (teams self)) 0 = Ok first ->
  exists txt : list line,
    print_items self sort false items = Ok txt /\
    length txt = list_sum (map (fun team => length team + 2)%nat (values items)) /\
    forall (team : list FootUser) (player : FootUser),
      In team (values items) -> In player team ->
      exists rank : nat, In (Entry rank (user_name player)) txt.
Proof.
  intros K. induction items as [|[captain players] items IH]; simpl.
  - exists []. repeat split. intros team player [].
  - destruct IH as [txt' [E' [L' M']]].
    unfold print_team. rewrite K. simpl. rewrite E'. simpl.
    eexists. split; [reflexivity|].
    set (ordered := if sort
                    then sorted (fun x y => String.leb (first_name x) (first_name y))
                                players
                    else players).
    assert (P : Permutation ordered players)
      by (subst ordered; destruct sort;
          [apply sorted_perm|apply Permutation_refl]).
    split.
    + simpl. rewrite !length_app, entries_length, L'. simpl.
      rewrite (Permutation_length P). lia.
    + intros team player [<-|T] I.
      * destruct (entries_in ordered player
                    (Permutation_in _ (Permutation_sym P) I) 0) as [rank R].
        exists rank. right. apply in_or_app. left. apply in_or_app. now left.
      * destruct (M' team player T I) as [rank R].
        exists rank. right. apply in_or_app. now right.
Qed.

(** [X12] Whenever [print_teams] returns the teams without their rates,
    sorted or not, the text has for each team a heading, one numbered line
    per member and an empty line, so every member of every team is
    named. *)
Theorem print_teams_plain (self : TeamKeshi) (sort : bool) (txt : list line) :
  print_teams self sort false = Ok txt ->
  length txt =
    list_sum (map (fun team => length team + 2)%nat (values (teams self))) /\
  forall (team : list FootUser) (player : FootUser),
    In team (values (teams self)) -> In player team ->
    exists rank : nat, In (Entry rank (user_name player)) txt.
Proof.
  unfold print_teams. destruct (teams self) as [|[captain players] items] eqn:E.
  - simpl. intros H. injection H as <-. split; [reflexivity|].
    intros team player [].
  - rewrite <- E. intros H.
    destruct (print_items_plain self sort captain (teams self))
      as [txt' [H' R]]; [rewrite E; reflexivity|].
    rewrite H' in H. injection H as <-. exact R.
Qed.

(** ** The status message *)

Lemma average_ok (rates : option (list Q)) :
  (exists rate : Q, average rates = Ok rate) <->
  exists l : list Q, rates = Some l /\ (1 <= length l)%nat.
Proof.
  unfold average. destruct rates as [l|].
  - destruct l as [|x l]; simpl; split.
    + intros [rate H]. discriminate.
    + intros [l' [H L]]. injection H as <-. simpl in L. lia.
    + intros _. exists (x :: l). split; [reflexivity|simpl; lia].
    + intros _. now eexists.
  - split; [intros [rate H]; discriminate|intros [l [H _]]; discriminate].
Qed.

Lemma team_rates_single (captain : FootUser) (l : list Q) :
  foot_rates captain = Some l ->
  ((1 <= length l <= 4)%nat ->
   exists rates : list Q,
     team_rates [captain] = Ok rates /\ length rates = 4%nat) /\
  ((4 < length l)%nat -> team_rates [captain] = Raise IndexError).
Proof.
  intros F. split.
  - intros L. unfold team_rates. simpl. rewrite F.
    destruct l as [|x0 [|x1 [|x2 [|x3 [|x4 l]]]]]; simpl in L; try lia;
      simpl; eexists; split; reflexivity.
  - intros L. unfold team_rates.
    rewrite (sum_rates_overflow [captain] [0; 0; 0; 0]%Q 0 eq_refl);
      [reflexivity|].
    exists captain, l. repeat split; auto. now left.
Qed.

Lemma print_team_needs_rates (self : TeamKeshi) (captain : FootUser)
    (players : list FootUser) (txt : list line) :
  print_team self false true captain players = Ok txt ->
  exists rates : list Q, team_rates players = Ok rates.
Proof.
  unfold print_team.
  destruct (list_index (keys (teams self)) 0) as [first|e]; simpl;
    [|discriminate].
  destruct (team_rates players) as [rates|e]; simpl; [|discriminate].
  intros _. now exists rates.
Qed.

Lemma print_team_of_rates (self : TeamKeshi) (captain first : FootUser)
    (players : list FootUser) (rates : list Q) :
  list_index (keys (teams self)) 0 = Ok first ->
  team_rates players = Ok rates ->
  length rates = 4%nat ->
  exists txt : list line, print_team self false true captain players = Ok txt.
Proof.
  intros K E L. unfold print_team. rewrite K, E. simpl.
  destruct rates as [|a0 [|a1 [|a2 [|a3 [|a4 rates]]]]]; try discriminate.
  simpl. now eexists.
Qed.

(** [X13] Right after the second captain has joined, the status message
    can be written exactly when each captain has between one and four
    rates.  With a captain whose rates are unknown, empty or more than
    four, [get_msg] raises, so the draft cannot be shown. *)
Theorem get_msg_after_pairing (self : TeamKeshi) (c1 c2 : FootUser) :
  teams self = [(c1, [c1]); (c2, [c2])] ->
  obj c1 <> obj c2 ->
  (exists msg : status_msg, get_msg self = Ok msg) <->
  (exists l1 l2 : list Q,
      foot_rates c1 = Some l1 /\ foot_rates c2 = Some l2 /\
      (1 <= length l1 <= 4)%nat /\ (1 <= length l2 <= 4)%nat).
Proof.
  intros E D.
  assert (F : is_finish self = false)
    by (apply (is_finish_short self c1 c2 [c1] [c2] E); simpl; lia).
  assert (K : list_index (keys (teams self)) 0 = Ok c1) by now rewrite E.
  split.
  - intros [msg H]. unfold get_msg in H.
    destruct (whose_turn self) as [captain|e] eqn:W; simpl in H; [|discriminate].
    destruct (print_teams self false true) as [txt|e] eqn:P; simpl in H;
      [|discriminate].
    rewrite (whose_turn_drafting self c1 c2 [c1] [c2] E D F) in W. simpl in W.
    destruct (average (foot_rates c1)) as [r1|] eqn:A1; simpl in W; [|discriminate].
    destruct (average (foot_rates c2)) as [r2|] eqn:A2; simpl in W; [|discriminate].
    destruct (proj1 (average_ok _) (ex_intro _ r1 A1)) as [l1 [F1 L1]].
    destruct (proj1 (average_ok _) (ex_intro _ r2 A2)) as [l2 [F2 L2]].
    exists l1, l2. split; [exact F1|]. split; [exact F2|].
    unfold print_teams in P. rewrite E in P. simpl in P.
    destruct (print_team self false true c1 [c1]) as [txt1|] eqn:P1;
      simpl in P; [|discriminate].
    destruct (print_team self false true c2 [c2]) as [txt2|] eqn:P2;
      simpl in P; [|discriminate].
    destruct (print_team_needs_rates self c1 [c1] txt1 P1) as [rates1 R1].
    destruct (print_team_needs_rates self c2 [c2] txt2 P2) as [rates2 R2].
    split; (split; [assumption|]).
    + destruct (Nat.le_gt_cases (length l1) 4) as [C|C]; [exact C|].
      rewrite (proj2 (team_rates_single c1 l1 F1) C) in R1. discriminate.
    + destruct (Nat.le_gt_cases (length l2) 4) as [C|C]; [exact C|].
      rewrite (proj2 (team_rates_single c2 l2 F2) C) in R2. discriminate.
  - intros [l1 [l2 [F1 [F2 [L1 L2]]]]].
    destruct (proj2 (average_ok (foot_rates c1))) as [r1 A1];
      [exists l1; split; [exact F1|lia]|].
    destruct (proj2 (average_ok (foot_rates c2))) as [r2 A2];
      [exists l2; split; [exact F2|lia]|].
    destruct (proj1 (team_rates_single c1 l1 F1) L1) as [rates1 [R1 N1]].
    destruct (proj1 (team_rates_single c2 l2 F2) L2) as [rates2 [R2 N2]].
    destruct (print_team_of_rates self c1 c1 [c1] rates1 K R1 N1) as [txt1 P1].
    destruct (print_team_of_rates self c2 c1 [c2] rates2 K R2 N2) as [txt2 P2].
    unfold get_msg, print_teams. rewrite E. simpl print_items.
    rewrite P1, P2. simpl.
    destruct (whose_turn_two_rated self c1 c2 [c1] [c2] r1 r2 E D A1 A2)
      as [W|W]; rewrite W; simpl; now eexists.
Qed.

(** ** The register *)

Lemma max_order_id_spec (all_players : list FootUser) :
  forall order_id0 : Z,
    (order_id0 <= max_order_id all_players order_id0)%Z /\
    (forall player : FootUser,
        In player all_players ->
        (order_id player <= max_order_id all_players order_id0)%Z) /\
    (max_order_id all_players order_id0 = order_id0 \/
     exists player : FootUser,
       In player all_players /\
       max_order_id all_players order_id0 = order_id player).
Proof.
  induction all_players as [|p l IH]; intros m; simpl.
  - repeat split; [lia|intros player []|now left].
  - destruct (IH (if (order_id p >? m)%Z then order_id p else m))
      as [H1 [H2 H3]].
    destruct (Z.gtb_spec (order_id p) m) as [G|G].
    + repeat split; [lia| |].
      * intros player [<-|I]; [exact H1|now apply H2].
      * right. destruct H3 as [H3|[player [I H3]]].
        -- exists p. split; [now left|exact H3].
        -- exists player. split; [now right|exact H3].
    + repeat split; [lia| |].
      * intros player [<-|I]; [lia|now apply H2].
      * destruct H3 as [H3|[player [I H3]]]; [now left|].
        right. exists player. split; [now right|exact H3].
Qed.

Lemma get_next_order_id_spec (all_players : list FootUser) :
  (0 <= get_next_order_id all_players)%Z /\
  (forall player : FootUser,
      In player all_players ->
      (order_id player < get_next_order_id all_players)%Z) /\
  (get_next_order_id all_players = 0%Z <->
   forall player : FootUser, In player all_players -> (order_id player < 0)%Z) /\
  (get_next_order_id all_players = 0%Z \/
   exists player : FootUser,
     In player all_players /\
     get_next_order_id all_players = (order_id player + 1)%Z).
Proof.
  unfold get_next_order_id.
  destruct (max_order_id_spec all_players (-1)) as [H1 [H2 H3]].
  destruct (Z.eqb_spec (max_order_id all_players (-1)) (-1)) as [E|N].
  - split; [lia|]. split; [|split].
    + intros player I. specialize (H2 player I). lia.
    + split; [|reflexivity].
      intros _ player I. specialize (H2 player I). lia.
    + now left.
  - destruct H3 as [H3|[player [I H3]]]; [contradiction|].
    split; [lia|]. split; [|split].
    + intros q J. specialize (H2 q J). lia.
    + split; [lia|]. intros A. specialize (A player I). lia.
    + right. exists player. split; [exact I|]. now rewrite H3.
Qed.

(** [X14] The next order is never negative and is larger than the order
    of every player: it is [0] when nobody is registered and one more than
    the largest order otherwise. *)
Theorem get_next_order_id_fresh (all_players : list FootUser) :
  (0 <= get_next_order_id all_players)%Z /\
  (forall player : FootUser,
      In player all_players ->
      (order_id player < get_next_order_id all_players)%Z) /\
  (get_next_order_id all_players = 0%Z <->
   forall player : FootUser, In player all_players -> (order_id player < 0)%Z) /\
  (get_next_order_id all_players = 0%Z \/
   exists player : FootUser,
     In player all_players /\
     get_next_order_id all_players = (order_id player + 1)%Z).
Proof. exact (get_next_order_id_spec all_players). Qed.

Lemma registered_orders_cons (p : FootUser) (l : list FootUser) :
  registered_orders (p :: l) =
    if (order_id p >=? 0)%Z then order_id p :: registered_orders l
    else registered_orders l.
Proof.
  unfold registered_orders. simpl. now destruct (order_id p >=? 0)%Z.
Qed.

Lemma NoDup_registered_tail (p : FootUser) (l : list FootUser) :
  NoDup (registered_orders (p :: l)) -> NoDup (registered_orders l).
Proof.
  rewrite registered_orders_cons. destruct (order_id p >=? 0)%Z; [|auto].
  intros H. now inversion H.
Qed.

Lemma set_order_id_absent (l : list FootUser) (user : FootUser) (v : Z) :
  ~ In (obj user) (map obj l) -> set_order_id l user v = l.
Proof.
  induction l as [|p l IH]; simpl; intros H; [reflexivity|].
  destruct (py_eq p user) eqn:E.
  - apply py_eq_true in E. elim H. left. exact E.
  - rewrite IH; [reflexivity|]. intros I. apply H. now right.
Qed.

Lemma set_order_id_orders (l : list FootUser) (user : FootUser) (v z : Z) :
  In z (registered_orders (set_order_id l user v)) ->
  z = v \/ In z (registered_orders l).
Proof.
  induction l as [|p l IH]; simpl; [intros []|].
  rewrite (registered_orders_cons p l).
  destruct (py_eq p user); rewrite registered_orders_cons; simpl.
  - destruct (v >=? 0)%Z.
    + intros [<-|I]; [now left|]. destruct (IH I) as [H|H]; [now left|].
      right. destruct (order_id p >=? 0)%Z; [now right|exact H].
    + intros I. destruct (IH I) as [H|H]; [now left|].
      right. destruct (order_id p >=? 0)%Z; [now right|exact H].
  - destruct (order_id p >=? 0)%Z.
    + intros [<-|I]; [right; now left|].
      destruct (IH I) as [H|H]; [now left|right; now right].
    + exact IH.
Qed.

Lemma set_order_id_fresh (l : list FootUser) (user : FootUser) (v : Z) :
  NoDup (map obj l) ->
  (forall p : FootUser, In p l -> (order_id p < v)%Z) ->
  NoDup (registered_orders l) ->
  NoDup (registered_orders (set_order_id l user v)).
Proof.
  induction l as [|p l IH]; intros U B N; [constructor|].
  inversion U as [|? ? U1 U2]; subst.
  pose proof (NoDup_registered_tail p l N) as N'.
  assert (B' : forall q : FootUser, In q l -> (order_id q < v)%Z)
    by (intros q I; apply B; now right).
  assert (V : ~ In v (registered_orders l)).
  { unfold registered_orders. intros I. apply in_map_iff in I.
    destruct I as [q [E I]]. apply filter_In in I. destruct I as [I _].
    specialize (B' q I). lia. }
  simpl. destruct (py_eq p user) eqn:E.
  - apply py_eq_true in E.
    rewrite (set_order_id_absent l user v) by (rewrite <- E; exact U1).
    rewrite registered_orders_cons. simpl.
    destruct (v >=? 0)%Z; [constructor|]; assumption.
  - rewrite registered_orders_cons.
    rewrite registered_orders_cons in N.
    destruct (order_id p >=? 0)%Z; [|now apply IH].
    inversion N as [|? ? N1 N2]; subst. constructor; [|now apply IH].
    intros I. destruct (set_order_id_orders l user v _ I) as [H|H].
    + specialize (B p (or_introl eq_refl)). lia.
    + contradiction.
Qed.

Lemma set_order_id_off (l : list FootUser) (user : FootUser) :
  NoDup (registered_orders l) ->
  NoDup (registered_orders (set_order_id l user (-1))).
Proof.
  induction l as [|p l IH]; intros N; [constructor|].
  pose proof (NoDup_registered_tail p l N) as N'.
  simpl. destruct (py_eq p user).
  - rewrite registered_orders_cons. simpl. now apply IH.
  - rewrite registered_orders_cons. rewrite registered_orders_cons in N.
    destruct (order_id p >=? 0)%Z eqn:R; [|now apply IH].
    inversion N as [|? ? N1 N2]; subst. constructor; [|now apply IH].
    intros I. destruct (set_order_id_orders l user (-1) _ I) as [H|H].
    + rewrite H in R. discriminate.
    + contradiction.
Qed.

Lemma NoDup_obj_same (l : list FootUser) (p q : FootUser) :
  NoDup (map obj l) -> In p l -> In q l -> obj p = obj q -> p = q.
Proof.
  induction l as [|x l IH]; intros U Ip Iq E; [contradiction|].
  inversion U as [|? ? U1 U2]; subst. simpl in Ip, Iq.
  destruct Ip as [->|Ip]; destruct Iq as [->|Iq]; auto.
  - elim U1. rewrite E. now apply in_map.
  - elim U1. rewrite <- E. now apply in_map.
Qed.

(** [X15] Signing up and signing off keep the orders of the registered
    players pairwise distinct, so the order stays a key of the queue.
    After signing up the user is registered, after signing off they are
    not, and neither changes who is in the register. *)
Theorem sign_up_off_orders_distinct (all_players : list FootUser) (user : FootUser) :
  NoDup (map obj all_players) ->
  In user all_players ->
  NoDup (registered_orders all_players) ->
  NoDup (registered_orders (sign_up all_players user)) /\
  NoDup (registered_orders (sign_off all_players user)) /\
  map obj (sign_up all_players user) = map obj all_players /\
  map obj (sign_off all_players user) = map obj all_players /\
  (forall player : FootUser,
      In player (sign_up all_players user) -> obj player = obj user ->
      (0 <= order_id player)%Z) /\
  (forall player : FootUser,
      In player (sign_off all_players user) -> obj player = obj user ->
      (order_id player < 0)%Z).
Proof.
  intros U I N.
  assert (M : forall v : Z,
             map obj (set_order_id all_players user v) = map obj all_players).
  { intros v. unfold set_order_id. rewrite map_map. apply map_ext.
    intros p. now destruct (py_eq p user). }
  assert (S : forall (v : Z) (player : FootUser),
             In player (set_order_id all_players user v) ->
             obj player = obj user -> order_id player = v).
  { intros v player J E. unfold set_order_id in J. apply in_map_iff in J.
    destruct J as [q [Eq J]]. destruct (py_eq q user) eqn:P.
    - now subst player.
    - subst player. apply py_eq_true in E. congruence. }
  destruct (get_next_order_id_spec all_players) as [G1 [G2 _]].
  unfold sign_up, sign_off.
  destruct (Z.ltb_spec (order_id user) 0) as [L|L];
    destruct (Z.geb_spec (order_id user) 0) as [L'|L']; try lia.
  - repeat split; auto.
    + now apply set_order_id_fresh.
    + intros player J E. rewrite (S _ player J E). exact G1.
    + intros player J E.
      rewrite (NoDup_obj_same all_players player user U J I E). exact L.
  - repeat split; auto.
    + now apply set_order_id_off.
    + intros player J E.
      rewrite (NoDup_obj_same all_players player user U J I E). exact L.
    + intros player J E. rewrite (S _ player J E). lia.
Qed.

(** ** The list of the next players and the candidates of the draft *)

Section FilterSorted.
Variable A : Type.
Variable key : A -> Z.
Variable f : A -> bool.

Lemma insert_first (x : A) (l : list A) :
  Forall (key_le key x) l -> insert (key_leb key) x l = x :: l.
Proof.
  intros H. destruct l as [|y l]; simpl; [reflexivity|].
  inversion H as [|? ? Hy _]; subst. unfold key_le in Hy. unfold key_leb.
  now rewrite (proj2 (Z.leb_le _ _) Hy).
Qed.

Lemma filter_insert (x : A) (l : list A) :
  StronglySorted (key_le key) l ->
  filter f (insert (key_leb key) x l) =
    if f x then insert (key_leb key) x (filter f l) else filter f l.
Proof.
  induction 1 as [|y l Hl IH Hy]; simpl.
  - now destruct (f x).
  - unfold key_leb at 1. destruct (Z.leb_spec (key x) (key y)) as [Hxy|Hxy].
    + simpl. destruct (f x); [|reflexivity].
      destruct (f y); simpl.
      * unfold key_leb. now rewrite (proj2 (Z.leb_le _ _) Hxy).
      * symmetry. apply insert_first.
        apply Forall_forall. intros z Hz. apply filter_In in Hz.
        destruct Hz as [Hz _]. rewrite Forall_forall in Hy.
        specialize (Hy z Hz). unfold key_le in *. lia.
    + simpl. rewrite IH. destruct (f x); destruct (f y); simpl; try reflexivity.
      unfold key_leb. now rewrite (proj2 (Z.leb_gt _ _) Hxy).
Qed.

(** Choosing the players before or after sorting them is the same. *)
Lemma filter_sorted (l : list A) :
  filter f (sorted (key_leb key) l) = sorted (key_leb key) (filter f l).
Proof.
  induction l as [|x l IH]; simpl; [reflexivity|].
  rewrite filter_insert by apply sorted_sorted.
  rewrite IH. now destruct (f x).
Qed.
End FilterSorted.

Lemma roster_lines_reserve (names : list string) :
  forall index : nat,
    (10 < index)%nat -> roster_lines index names = numbered (index - 9) names.
Proof.
  induction names as [|name names IH]; intros index H; simpl; [reflexivity|].
  replace (Nat.eqb index 10) with false by (symmetry; apply Nat.eqb_neq; lia).
  replace (index <? 10)%nat with false by (symmetry; apply Nat.ltb_ge; lia).
  simpl. rewrite IH by lia.
  replace (S index - 9)%nat with (S (index - 9)) by lia. reflexivity.
Qed.

Lemma roster_lines_front (k : nat) :
  forall (names : list string) (index : nat),
    (index + k = 10)%nat ->
    roster_lines index names =
      numbered (index + 1) (firstn k names)
      ++ match skipn k names with
         | [] => []
         | name :: names' => Reserve :: numbered 1 (name :: names')
         end.
Proof.
  induction k as [|k IH]; intros names index H.
  - replace index with 10%nat by lia. destruct names as [|name names]; simpl.
    + reflexivity.
    + now rewrite roster_lines_reserve by lia.
  - destruct names as [|name names]; simpl; [reflexivity|].
    replace (Nat.eqb index 10) with false by (symmetry; apply Nat.eqb_neq; lia).
    replace (index <? 10)%nat with true by (symmetry; apply Nat.ltb_lt; lia).
    simpl. rewrite (IH names (S index)) by lia.
    replace (S index + 1)%nat with (S (index + 1)) by lia. reflexivity.
Qed.

(** [X16] The players listed before the reserve are the candidates of the
    draft: the list of the next players numbers from one the names of the
    candidate pool of a session created from the same register, and
    everybody registered after them is in the reserve, numbered from one
    again. *)
Theorem get_program_and_players_pool (program : string) (all_players : list FootUser) :
  map user_name (players (init all_players)) = firstn 10 (next_players all_players) /\
  get_program_and_players program all_players =
    (program,
     numbered 1 (map user_name (players (init all_players)))
     ++ match skipn 10 (next_players all_players) with
        | [] => []
        | name :: names => Reserve :: numbered 1 (name :: names)
        end).
Proof.
  assert (P : map user_name (players (init all_players)) =
              firstn 10 (next_players all_players)).
  { unfold init, next_players. cbn [players].
    rewrite filter_sorted. symmetry. apply firstn_map. }
  split; [exact P|].
  unfold get_program_and_players. rewrite P.
  now rewrite (roster_lines_front 10 (next_players all_players) 0 eq_refl).
Qed.

(** ** The sample sessions under these properties *)

Lemma whose_turn_is_captain_witness :
  whose_turn (paired strong weak) = Ok weak /\
  (list_index (keys (teams (paired strong weak))) 0 = Ok weak \/
   list_index (keys (teams (paired strong weak))) 1 = Ok weak).
Proof.
  split; [reflexivity|].
  exact (whose_turn_is_captain (paired strong weak) weak eq_refl).
Defined.

Lemma whose_turn_smaller_team_witness :
  foot_rates unrated = None /\ foot_rates newcomer = None /\
  whose_turn uneven = Ok newcomer.
Proof.
  split; [reflexivity|]. split; [reflexivity|].
  refine (proj2 (whose_turn_smaller_team uneven unrated newcomer
                   [unrated; third] [newcomer] eq_refl _ _) _).
  - discriminate.
  - left. repeat constructor.
  - repeat constructor.
Defined.

Lemma add_player_not_captain_witness :
  add_player (paired strong weak) third unrated = Raise KeyError.
Proof.
  exact (add_player_not_captain (paired strong weak) third unrated eq_refl).
Defined.

Lemma add_player_appends_witness :
  exists self' : TeamKeshi,
    add_player (paired strong weak) weak third = Ok self' /\
    getitem (teams self') weak = Ok ([weak] ++ [third]) /\
    keys (teams self') = keys (teams (paired strong weak)) /\
    (forall other : FootUser,
        py_eq other weak = false ->
        getitem (teams self') other = getitem (teams (paired strong weak)) other) /\
    players self' = players (paired strong weak) /\
    who_validated self' = who_validated (paired strong weak).
Proof.
  exact (add_player_appends (paired strong weak) weak third [weak] eq_refl).
Defined.

Lemma picks_keep_balance_witness :
  exists (self' : TeamKeshi) (t1 t2 : list FootUser),
    picks sample_id (paired strong weak) eight_picks = Ok self' /\
    teams self' = [(strong, t1); (weak, t2)] /\
    (length t1 + length t2 = 2 + length eight_picks)%nat /\
    (length t1 <= length t2 + 1)%nat /\
    (length t2 <= length t1 + 1)%nat /\
    Permutation (t1 ++ t2) (strong :: weak :: eight_picks) /\
    (is_finish self' = true <-> length eight_picks = 8%nat).
Proof.
  eexists.
  assert (P : picks sample_id (paired strong weak) eight_picks = Ok _)
    by reflexivity.
  destruct (picks_keep_balance sample_id (paired strong weak) _ strong weak
              eight_picks eq_refl
              (fun E : obj strong = obj weak => O_S 0 E)
              (le_n 8) P) as [t1 [t2 H]].
  exists t1, t2. split; [exact P|exact H].
Defined.

Lemma picks_succeed_witness :
  exists (self' : TeamKeshi) (t1 t2 : list FootUser),
    picks sample_id (paired strong weak) eight_picks = Ok self' /\
    teams self' = [(strong, t1); (weak, t2)].
Proof.
  exact (picks_succeed sample_id strong weak (16 # 4) (8 # 4) eight_picks
           (fun E : obj strong = obj weak => O_S 0 E) eq_refl eq_refl
           (paired strong weak) [strong] [weak] eq_refl).
Defined.

Lemma print_teams_too_many_rates_witness :
  team_rates [overrated] = Raise IndexError /\
  exists e : exn, print_teams (paired overrated weak) false true = Raise e.
Proof.
  refine (print_teams_too_many_rates (paired overrated weak) false [overrated]
            overrated [1; 2; 3; 4; 5]%Q (or_introl eq_refl) (or_introl eq_refl)
            eq_refl _).
  repeat constructor.
Defined.

Lemma get_msg_after_pairing_witness :
  (exists msg : status_msg, get_msg (paired strong weak) = Ok msg) /\
  ~ (exists msg : status_msg, get_msg (paired strong unrated) = Ok msg).
Proof.
  split.
  - apply (get_msg_after_pairing (paired strong weak) strong weak eq_refl).
    + discriminate.
    + exists [4; 4; 4; 4]%Q, [2; 2; 2; 2]%Q. simpl. repeat split; repeat constructor.
  - intros H.
    apply (get_msg_after_pairing (paired strong unrated) strong unrated eq_refl)
      in H.
    + destruct H as [l1 [l2 [_ [H _]]]]. discriminate.
    + discriminate.
Defined.

Lemma sign_up_off_orders_distinct_witness :
  registered_orders (sign_up [strong; weak; guest] guest) = [0; 1; 2]%Z /\
  NoDup (registered_orders (sign_up [strong; weak; guest] guest)) /\
  NoDup (registered_orders (sign_off [strong; weak; guest] guest)).
Proof.
  split; [reflexivity|].
  assert (U : NoDup (map obj [strong; weak; guest])).
  { simpl. repeat constructor; simpl; intuition discriminate. }
  assert (N : NoDup (registered_orders [strong; weak; guest])).
  { simpl. repeat constructor; simpl; intuition discriminate. }
  destruct (sign_up_off_orders_distinct [strong; weak; guest] guest U
              (or_intror (or_intror (or_introl eq_refl))) N) as [H1 [H2 _]].
  split; assumption.
Defined.


Lemma print_teams_plain_witness :
  print_teams (paired strong weak) true false =
    Ok [Header true; Entry 1 "Joueur"; Blank;
        Header false; Entry 1 "Joueur"; Blank] /\
  exists rank : nat,
    In (Entry rank (user_name weak))
       [Header true; Entry 1 "Joueur"; Blank;
        Header false; Entry 1 "Joueur"; Blank].
Proof.
  split; [reflexivity|].
  exact (proj2 (print_teams_plain (paired strong weak) true _ eq_refl)
           [weak] weak (or_intror (or_introl eq_refl)) (or_introl eq_refl)).
Defined.
